(** * The background script of the conviction-voting app (app/src/script.js)

    A shallow embedding of [retryEvery], [reducer], [initState],
    [getRequestTokenSettings] and [loadGlobalParams], over a small model of
    the JavaScript store: values, objects and arrays living at locations, so
    that identity ([===] on objects), sharing and in-place updates
    ([Array.prototype.push]) are visible in the statements. *)

From Stdlib Require Import ZArith Lia.
From Stdlib Require Import Floats.SpecFloat.
From stdpp Require Import base list gmap strings pretty.

Open Scope Z_scope.

(** ** Strings and numbers *)

(** A JavaScript string is a sequence of UTF-16 code units. *)
Abbreviation jsstring := (list N).

(** The string literal of the source, as code units. *)
Fixpoint lit (s : string) : jsstring :=
  match s with
  | EmptyString => []
  | String a s' => Ascii.N_of_ascii a :: lit s'
  end.

(** A JavaScript number is a binary64 floating-point number. *)
Abbreviation jsnum := spec_float.

(** The Number value of a mathematical integer (round to nearest, ties to
    even; an integer too large for binary64 becomes an infinity). *)
Definition num_of_Z (z : Z) : jsnum := binary_normalize 53 1024 z 0 false.

Definition num_mul (x y : jsnum) : jsnum := SFmul 53 1024 x y.
Definition num_div (x y : jsnum) : jsnum := SFdiv 53 1024 x y.

(** ** The builtin [parseInt] (ECMAScript, 19.2.5) *)

(** [StrWhiteSpaceChar]: white space and line terminators. *)
Definition is_whitespace (c : N) : bool :=
  bool_decide (c ∈ [9; 10; 11; 12; 13; 32; 160; 5760; 8192; 8193; 8194; 8195;
                     8196; 8197; 8198; 8199; 8200; 8201; 8202; 8232; 8233;
                     8239; 8287; 12288; 65279]%N).

Fixpoint trim_start (s : jsstring) : jsstring :=
  match s with
  | c :: s' => if is_whitespace c then trim_start s' else s
  | [] => []
  end.

(** The value of a code unit as a digit: 0-9, then a-z and A-Z for 10-35. *)
Definition digit_value (c : N) : option Z :=
  if ((48 <=? c) && (c <=? 57))%N then Some (Z.of_N c - 48)
  else if ((97 <=? c) && (c <=? 122))%N then Some (Z.of_N c - 87)
  else if ((65 <=? c) && (c <=? 90))%N then Some (Z.of_N c - 55)
  else None.

(** The digits of the longest prefix of [s] made of radix-[R] digits. *)
Fixpoint take_digits (R : Z) (s : jsstring) : list Z :=
  match s with
  | c :: s' =>
      match digit_value c with
      | Some d => if d <? R then d :: take_digits R s' else []
      | None => []
      end
  | [] => []
  end.

(** The integer written by a list of digits in radix [R]. *)
Definition digits_value (R : Z) (ds : list Z) : Z :=
  fold_left (λ acc d, acc * R + d) ds 0.

Definition has_hex_prefix (s : jsstring) : bool :=
  match s with
  | 48%N :: x :: _ => (x =? 120)%N || (x =? 88)%N
  | _ => false
  end.

(** The sign a leading [-] gives, and the string without a leading [+] or
    [-]. *)
Definition sign_of (s : jsstring) : Z :=
  match s with
  | c :: _ => if (c =? 45)%N then -1 else 1
  | [] => 1
  end.

Definition strip_sign (s : jsstring) : jsstring :=
  match s with
  | c :: s' => if (c =? 43)%N || (c =? 45)%N then s' else s
  | [] => s
  end.

(** [parseInt(string, radix)] on a string; [radix] is the argument after
    [ToInt32], so that [0] stands for an absent radix.  The integer of more
    than 20 significant digits is taken exactly, which the standard allows. *)
Definition parseInt_radix (radix : Z) (inputString : jsstring) : jsnum :=
  let str := trim_start inputString in
  let sign := sign_of str in
  let str := strip_sign str in
  if negb (radix =? 0) && ((radix <? 2) || (36 <? radix)) then S754_nan
  else
    let R := if radix =? 0 then 10 else radix in
    let stripPrefix := (radix =? 0) || (radix =? 16) in
    let hex := stripPrefix && has_hex_prefix str in
    let R := if hex then 16 else R in
    let str := if hex then drop 2 str else str in
    match take_digits R str with
    | [] => S754_nan
    | ds =>
        let mathInt := digits_value R ds in
        if mathInt =? 0 then S754_zero (sign =? -1)
        else num_of_Z (sign * mathInt)
    end.

(** What [parseInt] reads the digits from: the string without its leading
    white space and sign. *)
Definition unsigned_body (x : option jsstring) : jsstring :=
  strip_sign (trim_start (default (lit "undefined") x)).

(** [parseInt(x)] as the source calls it, with no radix, on a field of an
    event's [returnValues]: a string, or [undefined] when the field is
    absent, which [ToString] turns into the string "undefined". *)
Definition parseInt (x : option jsstring) : jsnum :=
  parseInt_radix 0 (default (lit "undefined") x).

(** The base-10 integer parse the specification speaks of:
    [parseInt(x, 10)]. *)
Definition parseInt_base10 (x : option jsstring) : jsnum :=
  parseInt_radix 10 (default (lit "undefined") x).

(** ** Values and the store *)

Abbreviation loc := nat.

(** The values a state, an event or a collaborator's answer is made of:
    primitives, symbols (the sync-status markers of the host library) and
    references to objects and arrays. *)
Inductive val :=
  | VUndef
  | VNull
  | VBool (b : bool)
  | VNum (x : jsnum)
  | VStr (s : jsstring)
  | VSym (n : N)
  | VRef (l : loc).

(** What a location holds: a plain object (its own properties) or an array. *)
Inductive cell :=
  | CObj (fields : gmap string val)
  | CArr (elems : list val).

(** The store.  A new object takes the first unused location, so that it is
    different from every object that exists already. *)
Abbreviation heap := (list cell).

(** [a === b] *)
Definition strict_eq (a b : val) : bool :=
  match a, b with
  | VUndef, VUndef => true
  | VNull, VNull => true
  | VBool x, VBool y => Bool.eqb x y
  | VNum x, VNum y => SFeqb x y
  | VStr s, VStr t => bool_decide (s = t)
  | VSym n, VSym m => (n =? m)%N
  | VRef l, VRef k => (l =? k)%nat
  | _, _ => false
  end.

(** [ToBoolean] *)
Definition to_boolean (v : val) : bool :=
  match v with
  | VUndef | VNull => false
  | VBool b => b
  | VNum (S754_zero _) | VNum S754_nan => false
  | VNum _ => true
  | VStr s => negb (bool_decide (s = []))
  | VSym _ | VRef _ => true
  end.

(** ** Results and effects *)

(** What is thrown, or what a promise is rejected with: a [TypeError] of the
    language, or a collaborator's own reason. *)
Inductive err :=
  | TypeError
  | Failure (reason : val).

(** The outcome of a call or of an awaited promise. *)
Inductive res (A : Type) :=
  | Resolved (a : A)
  | Rejected (e : err).
Arguments Resolved {A} a.
Arguments Rejected {A} e.

(** A computation reads and updates the store, and resolves or rejects; the
    store it leaves is kept in both cases. *)
Definition M (A : Type) : Type := heap → res A * heap.

Definition ret {A} (a : A) : M A := λ h, (Resolved a, h).

Definition bind {A B} (m : M A) (k : A → M B) : M B := λ h,
  match m h with
  | (Resolved a, h') => k a h'
  | (Rejected e, h') => (Rejected e, h')
  end.

(** [await p], for a promise that settles to [r]. *)
Definition await {A} (r : res A) : M A := λ h, (r, h).

Notation "'let!' x ':=' m 'in' k" := (bind m (λ x, k))
  (at level 10, x name, m at level 100, k at level 200,
   format "'[v' 'let!'  x  ':='  m  'in' '/' k ']'").
Notation "m ';;' k" := (bind m (λ _, k))
  (at level 100, k at level 200, right associativity).

(** An object or array literal: a new location. *)
Definition alloc (c : cell) : M val := λ h, (Resolved (VRef (length h)), h ++ [c]).

(** The own enumerable properties of an array or of a string: its indices. *)
Definition index_props (xs : list val) : gmap string val :=
  list_to_map (imap (λ (i : nat) x, (pretty i, x)) xs).

(** The properties [{...v}] copies: none for [undefined], [null] and the
    other primitives but strings. *)
Definition own_props (h : heap) (v : val) : gmap string val :=
  match v with
  | VRef l =>
      match h !! l with
      | Some (CObj m) => m
      | Some (CArr xs) => index_props xs
      | None => ∅
      end
  | VStr s => index_props ((λ c, VStr [c]) <$> s)
  | _ => ∅
  end.

Definition spread (v : val) : M (gmap string val) := λ h, (Resolved (own_props h v), h).

(** [v.k] for the property names the source reads ([proposals], [id],
    [stakeToken], ...): none is an index or [length], so only a plain object
    can have one; reading a property of [undefined] or [null] throws. *)
Definition get_field (v : val) (k : string) : M val := λ h,
  match v with
  | VUndef | VNull => (Rejected TypeError, h)
  | VRef l =>
      match h !! l with
      | Some (CObj m) => (Resolved (default VUndef (m !! k)), h)
      | _ => (Resolved VUndef, h)
      end
  | _ => (Resolved VUndef, h)
  end.

(** [v[0]] *)
Definition get_index0 (v : val) : M val := λ h,
  match v with
  | VUndef | VNull => (Rejected TypeError, h)
  | VRef l =>
      match h !! l with
      | Some (CArr xs) => (Resolved (default VUndef (head xs)), h)
      | Some (CObj m) => (Resolved (default VUndef (m !! "0"%string)), h)
      | None => (Resolved VUndef, h)
      end
  | VStr (c :: _) => (Resolved (VStr [c]), h)
  | _ => (Resolved VUndef, h)
  end.

(** Evaluating [target.push] or [target.map], before the arguments: it
    throws when [target] is [undefined] or [null]. *)
Definition lookup_method (target : val) : M unit := λ h,
  match target with
  | VUndef | VNull => (Rejected TypeError, h)
  | _ => (Resolved (), h)
  end.

(** [target.push(x)]: the array at [target] is extended in place; a value
    that is no array has no callable [push]. *)
Definition call_push (target x : val) : M unit := λ h,
  match target with
  | VRef a =>
      match h !! a with
      | Some (CArr xs) => (Resolved (), <[a := CArr (xs ++ [x])]> h)
      | _ => (Rejected TypeError, h)
      end
  | _ => (Rejected TypeError, h)
  end.

Fixpoint mapM {A B} (f : A → M B) (xs : list A) : M (list B) :=
  match xs with
  | [] => ret []
  | x :: xs' =>
      let! y := f x in
      let! ys := mapM f xs' in
      ret (y :: ys)
  end.

(** [target.map(f)]: a new array of the results, the array at [target] is
    left as it is. *)
Definition call_map (target : val) (f : val → M val) : M val := λ h,
  match target with
  | VRef a =>
      match h !! a with
      | Some (CArr xs) => (let! ys := mapM f xs in alloc (CArr ys)) h
      | _ => (Rejected TypeError, h)
      end
  | _ => (Rejected TypeError, h)
  end.

(** ** getRequestTokenSettings (script.js, lines 229-233) *)

(** [updateBalances] is the promise of the vault-balance resolver called on
    a new empty list, the token address and the vault. *)
Definition getRequestTokenSettings (address : val) (updateBalances : res val) : M val :=
  let! balances := await updateBalances in
  let! first := get_index0 balances in
  let! props := spread first in
  let! settings := alloc (CObj (<["address"%string := address]> props)) in
  if to_boolean settings then ret settings else alloc (CObj ∅).

(** ** The reducer (script.js, lines 91-182) *)

(** The calls to [console.log] are left out: they read the state and leave
    it as it is. *)

(** An event of the store.  The parameters of a contract event are decoded
    to strings; a parameter the event does not have reads as [undefined].
    A parameter decoded to another value, [null] for one, is not an event
    of this model. *)
Record chain_event := {
  event : val;
  returnValues : gmap string jsstring;
  blockNumber : val;
  address : val;
}.

Definition rv (e : chain_event) (k : string) : val :=
  match returnValues e !! k with
  | Some s => VStr s
  | None => VUndef
  end.

(** What the collaborators answer while one event is reduced: the promise of
    [stakeToken.contract.totalSupply()] and that of [updateBalances]. *)
Record answers := {
  totalSupply : res val;
  updateBalances : res val;
}.

Section Reducer.

(** From ./lib/web3-utils and @aragon/api, which are not under src/. *)
Variable addressesEqual : val → val → bool.
Variable toUtf8 : val → res val.
Variables SYNC_STATUS_SYNCING SYNC_STATUS_SYNCED : val.

(** The addresses [initialize] received. *)
Variables stakeTokenAddress vaultAddress requestTokenAddress : val.

(** The object literal of the [ProposalAdded] case (lines 130-137), for
    the value [link] of [link && toUtf8(link)]. *)
Definition proposal_literal (e : chain_event) (link : val) : gmap string val :=
  <["id"%string := VNum (parseInt (returnValues e !! "id"%string))]>
  (<["name"%string := rv e "title"]>
  (<["link"%string := link]>
  (<["requestedAmount"%string := VNum (parseInt (returnValues e !! "amount"%string))]>
  (<["creator"%string := rv e "entity"]>
  (<["beneficiary"%string := rv e "beneficiary"]> ∅))))).

(** The object literal of the [StakeChanged] case (lines 149-156). *)
Definition stake_literal (e : chain_event) : gmap string val :=
  <["entity"%string := rv e "entity"]>
  (<["proposal"%string := VNum (parseInt (returnValues e !! "id"%string))]>
  (<["tokensStaked"%string := VNum (parseInt (returnValues e !! "tokensStaked"%string))]>
  (<["totalTokensStaked"%string := VNum (parseInt (returnValues e !! "totalTokensStaked"%string))]>
  (<["time"%string := blockNumber e]>
  (<["conviction"%string := VNum (parseInt (returnValues e !! "conviction"%string))]> ∅))))).

(** [link && toUtf8(link)] (line 133). *)
Definition decoded_link (e : chain_event) : res val :=
  if to_boolean (rv e "link") then toUtf8 (rv e "link") else Resolved (rv e "link").

(** [proposal => ...] of the [ProposalExecuted] case. *)
Definition flag_executed (e : chain_event) (proposal : val) : M val :=
  let! pid := get_field proposal "id" in
  if strict_eq pid (VNum (parseInt (returnValues e !! "id"%string))) then
    let! props := spread proposal in
    alloc (CObj (<["executed"%string := VBool true]> props))
  else ret proposal.

(** [switch (event) { ... }; return nextState] (lines 127-181). *)
Definition generic_switch (nextState : val) (e : chain_event) : M val :=
  if strict_eq (event e) (VStr (lit "ProposalAdded")) then
    let! link' := await (decoded_link e) in
    let! newProposal := alloc (CObj (proposal_literal e link')) in
    let! proposals := get_field nextState "proposals" in
    call_push proposals newProposal ;;
    ret nextState
  else if strict_eq (event e) (VStr (lit "StakeChanged")) then
    let! convictionStakes := get_field nextState "convictionStakes" in
    lookup_method convictionStakes ;;
    let! stake := alloc (CObj (stake_literal e)) in
    call_push convictionStakes stake ;;
    ret nextState
  else if strict_eq (event e) (VStr (lit "ProposalExecuted")) then
    let! props := spread nextState in
    let! proposals := get_field nextState "proposals" in
    lookup_method proposals ;;
    let! mapped := call_map proposals (flag_executed e) in
    alloc (CObj (<["proposals"%string := mapped]> props))
  else if strict_eq (event e) SYNC_STATUS_SYNCING then
    let! props := spread nextState in
    alloc (CObj (<["isSyncing"%string := VBool true]> props))
  else if strict_eq (event e) SYNC_STATUS_SYNCED then
    let! props := spread nextState in
    alloc (CObj (<["isSyncing"%string := VBool false]> props))
  else ret nextState.

(** The events of the stake token (lines 94-112). *)
Definition stake_token_switch (a : answers) (nextState : val) (e : chain_event) : M val :=
  if strict_eq (event e) (VStr (lit "Transfer")) then
    let! tokenSupply := await (totalSupply a) in
    let! props := spread nextState in
    let! stakeToken := get_field nextState "stakeToken" in
    let! tokenProps := spread stakeToken in
    let! stakeToken' := alloc (CObj (<["tokenSupply"%string := tokenSupply]> tokenProps)) in
    alloc (CObj (<["stakeToken"%string := stakeToken']> props))
  else ret nextState.

Definition reducer (a : answers) (state : val) (e : chain_event) : M val :=
  let! props := spread state in
  let! nextState := alloc (CObj props) in
  if addressesEqual (address e) stakeTokenAddress then
    stake_token_switch a nextState e
  else if addressesEqual (address e) vaultAddress
          && strict_eq (rv e "token") requestTokenAddress then
    let! props := spread nextState in
    let! requestToken := getRequestTokenSettings (rv e "token") (updateBalances a) in
    alloc (CObj (<["requestToken"%string := requestToken]> props))
  else generic_switch nextState e.

(** The store folds the events through the reducer one at a time, each
    reduction settled before the next begins; a rejected reduction ends
    the fold. *)
Fixpoint reduce_all (state : val) (es : list (answers * chain_event)) : M val :=
  match es with
  | [] => ret state
  | (a, e) :: es' =>
      let! state' := reducer a state e in
      reduce_all state' es'
  end.

End Reducer.

(** ** loadGlobalParams and initState (script.js, lines 198-227, 235-246) *)

(** What the collaborators answer while the state is initialised: the
    promises of [app.call('decay')], [app.call('maxRatio')] and
    [app.call('weight')] (decimal strings), of [loadTokenSettings] and of
    [updateBalances]. *)
Record init_answers := {
  decay : res jsstring;
  maxRatio : res jsstring;
  weight : res jsstring;
  loadTokenSettings : res val;
  init_updateBalances : res val;
}.

(** [Promise.all] of the three calls, then the scaled parameters.  When
    several calls are rejected the reason kept here is that of the first in
    the list. *)
Definition loadGlobalParams (a : init_answers) : M val :=
  let! decay := await (decay a) in
  let! maxRatio := await (maxRatio a) in
  let! weight := await (weight a) in
  alloc (CObj (<["alpha"%string := VNum (num_div (parseInt (Some decay)) (num_of_Z 10))]>
              (<["maxRatio"%string := VNum (num_div (parseInt (Some maxRatio)) (num_of_Z 10))]>
              (<["weight"%string := VNum (num_div (parseInt (Some weight)) (num_of_Z 100))]> ∅)))).

Section InitState.

(** From ./token-settings, which is not under src/. *)
Variable hasLoadedTokenSettings : heap → val → bool.

(** [ToString], as the template literal of the label applies it to a
    value of the store. *)
Variable to_label : heap → val → res jsstring.

Variable requestTokenAddress : val.

(** The label given to [app.identify]; the call itself leaves the store
    alone. *)
Definition identify_label (stakeTokenSettings requestTokenSettings : val) : M jsstring :=
  let! tokenSymbol := get_field stakeTokenSettings "tokenSymbol" in
  let! left := (λ h, (to_label h tokenSymbol, h)) in
  let! symbol := get_field requestTokenSettings "symbol" in
  let! right := (λ h, (to_label h symbol, h)) in
  ret (left ++ lit "-" ++ right).

Definition initState (a : init_answers) (cachedState : val) : M val :=
  let! cachedParams :=
    (if to_boolean cachedState then get_field cachedState "globalParams"
     else ret cachedState) in
  let! globalParams :=
    (if to_boolean cachedParams then ret cachedParams else loadGlobalParams a) in
  let! loaded := (λ h, (Resolved (hasLoadedTokenSettings h cachedState), h)) in
  let! stakeTokenSettings :=
    (if loaded : bool then get_field cachedState "stakeTokenSettings"
     else await (loadTokenSettings a)) in
  let! requestTokenSettings :=
    getRequestTokenSettings requestTokenAddress (init_updateBalances a) in
  identify_label stakeTokenSettings requestTokenSettings ;;
  let! proposals := alloc (CArr []) in
  let! convictionStakes := alloc (CArr []) in
  let! cached := spread cachedState in
  alloc (CObj (<["isSyncing"%string := VBool true]>
              (<["requestToken"%string := requestTokenSettings]>
              (<["stakeToken"%string := stakeTokenSettings]>
              (<["globalParams"%string := globalParams]>
              (cached ∪ (<["proposals"%string := proposals]>
                        (<["convictionStakes"%string := convictionStakes]> ∅)))))))).

End InitState.

(** ** retryEvery (script.js, lines 31-58) *)

Section Retry.

Context {A : Type}.

(** [callback k] is how the invocation that follows [k] earlier ones
    settles. *)
Variable callback : nat → res A.

(** The options.  [retryNum] only counts up from 0 by one, and is kept as
    an integer; [maxRetries] is the integer it is compared with. *)
Variables initialRetryTimer increaseFactor : jsnum.
Variable maxRetries : Z.

(** What a run has done so far: the invocations of [callback], the counter
    [retryNum], and the delays slept, oldest first. *)
Record retry_state := {
  calls : nat;
  retryNum : Z;
  sleeps : list jsnum;
}.

(** [attempt(retryTimer)].  The recursion of the source has no bound of
    its own, so the model counts the invocations it may still make:
    [None] says that [fuel] invocations did not settle the promise.  The
    message logged before each delay is left out. *)
Fixpoint attempt (fuel : nat) (retryTimer : jsnum) (st : retry_state)
  : option (res A * retry_state) :=
  match fuel with
  | O => None
  | S fuel' =>
      let st' := {| calls := S (calls st); retryNum := retryNum st; sleeps := sleeps st |} in
      match callback (calls st) with
      | Resolved a => Some (Resolved a, st')
      | Rejected err =>
          if retryNum st =? maxRetries then Some (Rejected err, st')
          else
            let nextRetryTime := num_mul retryTimer increaseFactor in
            attempt fuel' nextRetryTime
              {| calls := calls st'; retryNum := retryNum st' + 1;
                 sleeps := sleeps st' ++ [nextRetryTime] |}
      end
  end.

Definition retryEvery (fuel : nat) : option (res A * retry_state) :=
  attempt fuel initialRetryTimer {| calls := 0; retryNum := 0; sleeps := [] |}.

End Retry.

(** ** Vocabulary of the statements *)

(** The value of property [k] of [v] in store [h], [undefined] when [v] has
    no such own property. *)
Definition field_of (h : heap) (v : val) (k : string) : val :=
  default VUndef (own_props h v !! k).

(** The elements of the array that property [k] of [state] refers to. *)
Definition array_of (h : heap) (state : val) (k : string) : option (list val) :=
  match field_of h state k with
  | VRef a => match h !! a with Some (CArr xs) => Some xs | _ => None end
  | _ => None
  end.

(** Property [id] of [v] is the number [n] ([v.id === n]). *)
Definition has_id (h : heap) (n : jsnum) (v : val) : bool :=
  strict_eq (field_of h v "id") (VNum n).

(** [v] is a reference to a plain object of [h]. *)
Definition is_object (h : heap) (v : val) : Prop :=
  ∃ l m, v = VRef l ∧ h !! l = Some (CObj m).

(** How the store may change under the reducer: an object keeps its
    properties, an array keeps its elements and may get more at its end. *)
Definition heap_le (h h' : heap) : Prop :=
  ∀ l : loc,
    (∀ m, h !! l = Some (CObj m) → h' !! l = Some (CObj m))
    ∧ (∀ xs, h !! l = Some (CArr xs) → ∃ ys, h' !! l = Some (CArr (xs ++ ys))).

(** In store [h], [v'] is [v] itself, or an object with the properties of
    the object [v] and [executed] set to [true]. *)
Definition kept (h : heap) (v v' : val) : Prop :=
  v' = v
  ∨ ∃ (l l' : loc) (m : gmap string val),
      v = VRef l ∧ v' = VRef l' ∧ h !! l = Some (CObj m)
      ∧ h !! l' = Some (CObj (<["executed"%string := VBool true]> m)).

(** The elements [xs] are all kept, in their order, at the start of
    [xs']. *)
Definition extends (h : heap) (xs xs' : list val) : Prop :=
  ∃ zs ws : list val, xs' = zs ++ ws ∧ Forall2 (kept h) xs zs.

Section Dispatch.

Variable addressesEqual : val → val → bool.
Variables SYNC_STATUS_SYNCING SYNC_STATUS_SYNCED : val.
Variables stakeTokenAddress vaultAddress requestTokenAddress : val.

(** The event comes from the stake token. *)
Definition from_stake_token (e : chain_event) : bool :=
  addressesEqual (address e) stakeTokenAddress.

(** The event comes from the vault and is about the request token. *)
Definition vault_token_event (e : chain_event) : bool :=
  addressesEqual (address e) vaultAddress
  && strict_eq (rv e "token") requestTokenAddress.

(** Neither of the two branches before the [switch] takes the event. *)
Definition reaches_switch (e : chain_event) : bool :=
  negb (from_stake_token e) && negb (vault_token_event e).

(** The event name is one of the cases of the [switch]. *)
Definition switch_case (e : chain_event) : bool :=
  strict_eq (event e) (VStr (lit "ProposalAdded"))
  || strict_eq (event e) (VStr (lit "StakeChanged"))
  || strict_eq (event e) (VStr (lit "ProposalExecuted"))
  || strict_eq (event e) SYNC_STATUS_SYNCING
  || strict_eq (event e) SYNC_STATUS_SYNCED.

(** No case of the reducer handles the event. *)
Definition unhandled (e : chain_event) : bool :=
  if from_stake_token e then negb (strict_eq (event e) (VStr (lit "Transfer")))
  else reaches_switch e && negb (switch_case e).

End Dispatch.

(** ** The call of retryEvery (script.js, lines 61-75) *)

(** [retryEvery(callback)] as the script calls it to start: no options, so
    the defaults of line 33 apply, a first delay base of 1000, a factor of 3
    and 3 retries. *)
Definition retryEvery_default {A : Type} (callback : nat → res A) (fuel : nat)
  : option (res A * retry_state) :=
  retryEvery callback (num_of_Z 1000) (num_of_Z 3) 3 fuel.

(** The delays of [d] retries in a row, from the timer [retryTimer] on:
    each is the one before times [increaseFactor]. *)
Fixpoint backoff (increaseFactor retryTimer : jsnum) (d : nat) : list jsnum :=
  match d with
  | O => []
  | S d' =>
      num_mul retryTimer increaseFactor
      :: backoff increaseFactor (num_mul retryTimer increaseFactor) d'
  end.

(** A computation that leaves each object of the store as it is and each
    array with its elements, possibly followed by more, whatever its
    outcome. *)
Definition grows {A : Type} (m : M A) : Prop :=
  ∀ (h : heap) (r : res A) (h' : heap), m h = (r, h') → heap_le h h'.

(** ** Examples used by the closed statements *)

Module Ex.

(** Addresses are compared as they are, links decode to themselves. *)
Definition stake := VStr (lit "0xaa").
Definition vault := VStr (lit "0xbb").
Definition token := VStr (lit "0xcc").
Definition syncing := VSym 1.
Definition synced := VSym 2.

Definition reduce : answers → val → chain_event → M val :=
  reducer strict_eq (λ v, Resolved v) syncing synced stake vault token.

Definition reduce_events : val → list (answers * chain_event) → M val :=
  reduce_all strict_eq (λ v, Resolved v) syncing synced stake vault token.

(** The seed state [{proposals: [], convictionStakes: []}] at location 2. *)
Definition seed_heap : heap :=
  [CArr []; CArr [];
   CObj (<["proposals"%string := VRef 0%nat]>
        (<["convictionStakes"%string := VRef 1%nat]> ∅))].
Definition seed : val := VRef 2%nat.

Definition no_answer : answers :=
  {| totalSupply := Rejected TypeError; updateBalances := Rejected TypeError |}.

Definition other := VStr (lit "0xdd").

(** [ProposalAdded{id:"1", title:"Fund X", amount:"500", entity:"0xa1",
    beneficiary:"0xb1", link:""}] *)
Definition proposal_added : chain_event :=
  {| event := VStr (lit "ProposalAdded");
     returnValues :=
       <["id"%string := lit "1"]> (<["title"%string := lit "Fund X"]>
       (<["amount"%string := lit "500"]> (<["entity"%string := lit "0xa1"]>
       (<["beneficiary"%string := lit "0xb1"]> (<["link"%string := lit ""]> ∅)))));
     blockNumber := VNum (num_of_Z 90);
     address := other |}.

(** [StakeChanged{entity:"0xc1", id:"1", tokensStaked:"10",
    totalTokensStaked:"10", conviction:"5"}] at block 100 *)
Definition stake_changed : chain_event :=
  {| event := VStr (lit "StakeChanged");
     returnValues :=
       <["entity"%string := lit "0xc1"]> (<["id"%string := lit "1"]>
       (<["tokensStaked"%string := lit "10"]>
       (<["totalTokensStaked"%string := lit "10"]>
       (<["conviction"%string := lit "5"]> ∅))));
     blockNumber := VNum (num_of_Z 100);
     address := other |}.

(** [ProposalExecuted{id:"1"}] *)
Definition proposal_executed : chain_event :=
  {| event := VStr (lit "ProposalExecuted");
     returnValues := <["id"%string := lit "1"]> ∅;
     blockNumber := VNum (num_of_Z 110);
     address := other |}.

(** An event no case handles. *)
Definition unknown_event : chain_event :=
  {| event := VStr (lit "NewPeriod");
     returnValues := ∅;
     blockNumber := VNum (num_of_Z 120);
     address := other |}.

(** A state with two proposals, [{id: 7, name: "a", executed: false}] and
    [{id: 8, name: "b", executed: false}], at location 4. *)
Definition two_proposals_heap : heap :=
  [CObj (<["id"%string := VNum (num_of_Z 7)]> (<["name"%string := VStr (lit "a")]>
        (<["executed"%string := VBool false]> ∅)));
   CObj (<["id"%string := VNum (num_of_Z 8)]> (<["name"%string := VStr (lit "b")]>
        (<["executed"%string := VBool false]> ∅)));
   CArr [VRef 0%nat; VRef 1%nat]; CArr [];
   CObj (<["proposals"%string := VRef 2%nat]>
        (<["convictionStakes"%string := VRef 3%nat]> ∅))].
Definition two_proposals : val := VRef 4%nat.

(** [ProposalExecuted{id:"7"}] *)
Definition proposal_7_executed : chain_event :=
  {| event := VStr (lit "ProposalExecuted");
     returnValues := <["id"%string := lit "7"]> ∅;
     blockNumber := VNum (num_of_Z 130);
     address := other |}.

(** The seed state, and the list [[{symbol: "DAI"}]] that [updateBalances]
    resolves to, at location 3. *)
Definition balances_heap : heap :=
  seed_heap ++ [CArr [VRef 4%nat]; CObj (<["symbol"%string := VStr (lit "DAI")]> ∅)].
Definition balances_answer : answers :=
  {| totalSupply := Rejected TypeError; updateBalances := Resolved (VRef 3%nat) |}.

(** A vault event about the request token, and one about another token. *)
Definition vault_deposit : chain_event :=
  {| event := VStr (lit "VaultDeposit");
     returnValues := <["token"%string := lit "0xcc"]> ∅;
     blockNumber := VNum (num_of_Z 140);
     address := vault |}.
Definition vault_deposit_other : chain_event :=
  {| event := VStr (lit "VaultDeposit");
     returnValues := <["token"%string := lit "0xee"]> ∅;
     blockNumber := VNum (num_of_Z 150);
     address := vault |}.

(** A cached state [{isSyncing: false, proposals: [], convictionStakes: []}]
    at location 2, with the vault's balances [[{symbol: "DAI"}]] at
    location 3. *)
Definition cached_heap : heap :=
  [CArr []; CArr [];
   CObj (<["isSyncing"%string := VBool false]>
        (<["proposals"%string := VRef 0%nat]>
        (<["convictionStakes"%string := VRef 1%nat]> ∅)));
   CArr [VRef 4%nat]; CObj (<["symbol"%string := VStr (lit "DAI")]> ∅);
   CObj (<["tokenSymbol"%string := VStr (lit "HNY")]> ∅)].
Definition cached : val := VRef 2%nat.

Definition init_answer : init_answers :=
  {| decay := Resolved (lit "9");
     maxRatio := Resolved (lit "2");
     weight := Resolved (lit "5");
     loadTokenSettings := Resolved (VRef 5%nat);
     init_updateBalances := Resolved (VRef 3%nat) |}.

(** No token settings are cached; the label is not looked at. *)
Definition init : init_answers → val → M val :=
  initState (λ _ _, false) (λ _ _, Resolved []) token.

(** [ProposalAdded] with the id written ["0x10"]. *)
Definition proposal_added_hex : chain_event :=
  {| event := VStr (lit "ProposalAdded");
     returnValues :=
       <["id"%string := lit "0x10"]> (<["title"%string := lit "Fund Y"]>
       (<["amount"%string := lit "abc"]> ∅));
     blockNumber := VNum (num_of_Z 95);
     address := other |}.

(** A [Transfer] of the stake token, and the total supply ["1000"]. *)
Definition transfer : chain_event :=
  {| event := VStr (lit "Transfer");
     returnValues := <["_amount"%string := lit "5"]> ∅;
     blockNumber := VNum (num_of_Z 160);
     address := stake |}.
Definition supply_answer : answers :=
  {| totalSupply := Resolved (VStr (lit "1000")); updateBalances := Rejected TypeError |}.

(** The marker of a sync that starts. *)
Definition sync_started : chain_event :=
  {| event := syncing;
     returnValues := ∅;
     blockNumber := VUndef;
     address := VUndef |}.

(** [ProposalExecuted{id:"abc"}] *)
Definition proposal_unparsed_executed : chain_event :=
  {| event := VStr (lit "ProposalExecuted");
     returnValues := <["id"%string := lit "abc"]> ∅;
     blockNumber := VNum (num_of_Z 170);
     address := other |}.

(** The cached state [{globalParams: {alpha: 0.9}, proposals: [],
    convictionStakes: []}] at location 7. *)
Definition cached_params_heap : heap :=
  cached_heap
  ++ [CObj (<["alpha"%string := VNum (num_div (num_of_Z 9) (num_of_Z 10))]> ∅);
      CObj (<["globalParams"%string := VRef 6%nat]>
           (<["proposals"%string := VRef 0%nat]>
           (<["convictionStakes"%string := VRef 1%nat]> ∅)))].
Definition cached_params : val := VRef 7%nat.

(** The token settings count as loaded for a state that has [stakeToken]. *)
Definition has_stake_token (h : heap) (v : val) : bool :=
  bool_decide (is_Some (own_props h v !! "stakeToken"%string)).
Definition init_restart : init_answers → val → M val :=
  initState has_stake_token (λ _ _, Resolved []) token.

(** The first start, from the cached state at location 2. *)
Definition started : res val * heap := init_restart init_answer cached cached_heap.

(** A first start, with no cached state. *)
Definition first_start : res val * heap := init_restart init_answer VNull cached_heap.

(** A state whose only proposal is [{id: NaN, name: "a", executed: false}],
    at location 3. *)
Definition unparsed_proposal_heap : heap :=
  [CObj (<["id"%string := VNum S754_nan]> (<["name"%string := VStr (lit "a")]>
        (<["executed"%string := VBool false]> ∅)));
   CArr [VRef 0%nat]; CArr [];
   CObj (<["proposals"%string := VRef 1%nat]>
        (<["convictionStakes"%string := VRef 2%nat]> ∅))].
Definition unparsed_proposal : val := VRef 3%nat.

(** [ProposalExecuted{id:"7"}] emitted by the stake token. *)
Definition proposal_7_executed_by_stake : chain_event :=
  {| event := VStr (lit "ProposalExecuted");
     returnValues := <["id"%string := lit "7"]> ∅;
     blockNumber := VNum (num_of_Z 180);
     address := stake |}.

End Ex.

(** * Theorems *)

(** ** The monad *)

Lemma bind_resolved {A B} (m : M A) (k : A → M B) h b h' :
  bind m k h = (Resolved b, h') →
  ∃ a h1, m h = (Resolved a, h1) ∧ k a h1 = (Resolved b, h').
Proof.
  unfold bind. destruct (m h) as [[a|e] h1]; [eauto | discriminate].
Qed.

Lemma bind_run {A B} (m : M A) (k : A → M B) h a h1 :
  m h = (Resolved a, h1) → bind m k h = k a h1.
Proof. unfold bind. by intros ->. Qed.

Lemma lookup_alloc (h : heap) (c : cell) : (h ++ [c]) !! length h = Some c.
Proof. by rewrite list_lookup_middle. Qed.

Lemma lookup_fresh (h : heap) : h !! length h = None.
Proof. apply lookup_ge_None_2. lia. Qed.

Lemma own_props_alloc (h : heap) (m : gmap string val) :
  own_props (h ++ [CObj m]) (VRef (length h)) = m.
Proof. unfold own_props. by rewrite lookup_alloc. Qed.

(** ** The store after allocations *)

Lemma lookup_at0 (h : heap) c l : (h ++ c :: l) !! length h = Some c.
Proof. by rewrite list_lookup_middle. Qed.

Lemma lookup_at1 (h : heap) c d l : (h ++ c :: d :: l) !! S (length h) = Some d.
Proof.
  change (h ++ c :: d :: l) with (h ++ [c] ++ d :: l).
  rewrite app_assoc. rewrite list_lookup_middle; [done|].
  rewrite length_app. simpl. lia.
Qed.

Lemma lookup_at2 (h : heap) c d f l :
  (h ++ c :: d :: f :: l) !! S (S (length h)) = Some f.
Proof.
  change (h ++ c :: d :: f :: l) with (h ++ [c; d] ++ f :: l).
  rewrite app_assoc. rewrite list_lookup_middle; [done|].
  rewrite length_app. simpl. lia.
Qed.

Lemma lookup_old (h l : heap) a c : h !! a = Some c → (h ++ l) !! a = Some c.
Proof. intros H. rewrite lookup_app_l; [done|]. by eapply lookup_lt_Some. Qed.

Lemma own_props_obj (h : heap) l m : h !! l = Some (CObj m) → own_props h (VRef l) = m.
Proof. unfold own_props. by intros ->. Qed.

Lemma field_of_obj (h : heap) l m k :
  h !! l = Some (CObj m) → field_of h (VRef l) k = default VUndef (m !! k).
Proof. intros H. unfold field_of. by rewrite (own_props_obj _ _ _ H). Qed.

(** [NaN] is the [id] of no value: [x === NaN] holds for no [x]. *)
Lemma has_id_nan (h : heap) (v : val) : has_id h S754_nan v = false.
Proof.
  unfold has_id, strict_eq. destruct (field_of h v "id") as [| | |x| | |]; try done.
  by destruct x.
Qed.

Lemma array_of_lookup (h : heap) s k a xs :
  field_of h s k = VRef a → h !! a = Some (CArr xs) → array_of h s k = Some xs.
Proof. unfold array_of. by intros -> ->. Qed.

(** Updating an array in place changes the own properties of no value that
    had some: an array's are its indices, and those it had stay. *)
Lemma own_props_insert_array (h k : heap) a xs ys v key x :
  h !! a = Some (CArr xs) →
  own_props h v !! key = Some x →
  own_props (<[a := CArr (xs ++ ys)]> (h ++ k)) v !! key = Some x.
Proof.
  intros Ha. assert (Hlt : (a < length h)%nat) by (by eapply lookup_lt_Some).
  destruct v as [| | | | | |l]; try done. unfold own_props.
  destruct (decide (l = a)) as [->|Hne].
  - rewrite list_lookup_insert_eq by (rewrite length_app; lia). rewrite Ha.
    unfold index_props. intros Hx.
    apply elem_of_list_to_map_2 in Hx.
    apply elem_of_lookup_imap in Hx as (i & y & Heq & Hi).
    injection Heq as Hkey Hy. subst key y.
    apply elem_of_list_to_map_1'.
    + intros y' Hy'. apply elem_of_lookup_imap in Hy' as (j & y'' & Heq & Hj).
      injection Heq as Hij Hy. subst y''. apply (inj pretty) in Hij. subst j.
      rewrite lookup_app_l in Hj by (by eapply lookup_lt_Some). congruence.
    + apply elem_of_lookup_imap. exists i, x. split; [done|].
      by apply lookup_app_l_Some.
  - rewrite list_lookup_insert_ne by done.
    destruct (h !! l) as [c|] eqn:Hl; [|done].
    by rewrite (lookup_old _ _ _ _ Hl).
Qed.

(** Heaps are kept in the shape [h ++ [c1; ...; cn]]. *)
Ltac heap_norm :=
  repeat rewrite <- app_assoc; cbn [app];
  repeat rewrite length_app; cbn [length];
  rewrite ?Nat.add_0_r, ?Nat.add_1_r, ?Nat.add_succ_r, ?Nat.add_0_r;
  rewrite ?lookup_at0, ?lookup_at1, ?lookup_at2.

Ltac run :=
  unfold bind, await, alloc, spread, get_field, call_push, lookup_method, ret;
  heap_norm; cbn [from_option id].

Lemma strict_eq_str v s : strict_eq v (VStr s) = true → v = VStr s.
Proof.
  destruct v; simpl; try discriminate.
  case_bool_decide; [congruence | discriminate].
Qed.

(** ** getRequestTokenSettings *)

Lemma get_index0_store v h : (get_index0 v h).2 = h.
Proof.
  unfold get_index0. destruct v as [| | | |[|c s]| |l]; try done.
  by destruct (h !! l) as [[m|xs]|].
Qed.

Lemma getRequestTokenSettings_resolved address r h v h' :
  getRequestTokenSettings address r h = (Resolved v, h') →
  ∃ balances first,
    r = Resolved balances ∧ get_index0 balances h = (Resolved first, h) ∧
    v = VRef (length h) ∧
    h' = h ++ [CObj (<["address"%string := address]> (own_props h first))].
Proof.
  unfold getRequestTokenSettings. intros H.
  apply bind_resolved in H as (balances & h1 & Hr & H).
  unfold await in Hr. injection Hr as -> <-.
  apply bind_resolved in H as (first & h1 & Hi & H).
  pose proof (get_index0_store balances h) as Hs. rewrite Hi in Hs. simpl in Hs. subst h1.
  revert H. run. intros [= <- <-]. eauto 6.
Qed.

Lemma getRequestTokenSettings_rejected address r h err h' :
  getRequestTokenSettings address r h = (Rejected err, h') → h' = h.
Proof.
  unfold getRequestTokenSettings, bind, await. destruct r as [balances|e0].
  - pose proof (get_index0_store balances h) as Hs.
    destruct (get_index0 balances h) as [[first|e1] h1]; simpl in Hs; subst h1.
    + run. discriminate.
    + by intros [= _ <-].
  - by intros [= _ <-].
Qed.

(** ** The reducer, case by case *)

Section ReducerFacts.

Variable addressesEqual : val → val → bool.
Variable toUtf8 : val → res val.
Variables SYNC_STATUS_SYNCING SYNC_STATUS_SYNCED : val.
Variables stakeTokenAddress vaultAddress requestTokenAddress : val.

Local Abbreviation red :=
  (reducer addressesEqual toUtf8 SYNC_STATUS_SYNCING SYNC_STATUS_SYNCED
     stakeTokenAddress vaultAddress requestTokenAddress).
Local Abbreviation switch :=
  (generic_switch toUtf8 SYNC_STATUS_SYNCING SYNC_STATUS_SYNCED).
Local Abbreviation from_stake := (from_stake_token addressesEqual stakeTokenAddress).
Local Abbreviation vault_token :=
  (vault_token_event addressesEqual vaultAddress requestTokenAddress).
Local Abbreviation to_switch :=
  (reaches_switch addressesEqual stakeTokenAddress vaultAddress requestTokenAddress).
Local Abbreviation is_unhandled :=
  (unhandled addressesEqual SYNC_STATUS_SYNCING SYNC_STATUS_SYNCED
     stakeTokenAddress vaultAddress requestTokenAddress).

(** Every reduction starts with the copy [{ ...state }], then dispatches. *)
Lemma reducer_dispatch a state e h :
  red a state e h =
  (if from_stake e then stake_token_switch a (VRef (length h)) e
   else if vault_token e then
     let! props := spread (VRef (length h)) in
     let! requestToken := getRequestTokenSettings (rv e "token") (updateBalances a) in
     alloc (CObj (<["requestToken"%string := requestToken]> props))
   else switch (VRef (length h)) e)
    (h ++ [CObj (own_props h state)]).
Proof. reflexivity. Qed.

Lemma reducer_to_switch a state e h :
  to_switch e = true →
  red a state e h = switch (VRef (length h)) e (h ++ [CObj (own_props h state)]).
Proof.
  rewrite reducer_dispatch. unfold reaches_switch.
  destruct (from_stake e), (vault_token e); simpl; congruence.
Qed.

Lemma switch_no_case nextState e h :
  switch_case SYNC_STATUS_SYNCING SYNC_STATUS_SYNCED e = false →
  switch nextState e h = (Resolved nextState, h).
Proof.
  unfold switch_case, generic_switch. intros H.
  repeat (apply orb_false_iff in H as [H ?]).
  by repeat match goal with Hc : strict_eq _ _ = false |- _ => rewrite Hc; clear Hc end.
Qed.

Lemma unhandled_run a state e h :
  is_unhandled e = true →
  red a state e h = (Resolved (VRef (length h)), h ++ [CObj (own_props h state)]).
Proof.
  unfold unhandled. intros H. destruct (from_stake e) eqn:Hs.
  - rewrite reducer_dispatch, Hs. unfold stake_token_switch.
    apply negb_true_iff in H. by rewrite H.
  - apply andb_true_iff in H as [Hsw Hcase]. apply negb_true_iff in Hcase.
    rewrite reducer_to_switch by done. by apply switch_no_case.
Qed.

Lemma ProposalAdded_run a state e h arr xs link :
  strict_eq (event e) (VStr (lit "ProposalAdded")) = true →
  to_switch e = true →
  own_props h state !! "proposals"%string = Some (VRef arr) →
  h !! arr = Some (CArr xs) →
  decoded_link toUtf8 e = Resolved link →
  red a state e h =
  (Resolved (VRef (length h)),
   <[arr := CArr (xs ++ [VRef (S (length h))])]>
     (h ++ [CObj (own_props h state); CObj (proposal_literal e link)])).
Proof.
  intros Hname Hsw Hprops Harr Hlink.
  rewrite reducer_to_switch by done.
  unfold generic_switch. rewrite Hname, Hlink.
  run. rewrite Hprops. cbn [from_option id].
  by rewrite (lookup_old _ _ _ _ Harr).
Qed.

Lemma StakeChanged_run a state e h arr xs :
  strict_eq (event e) (VStr (lit "StakeChanged")) = true →
  to_switch e = true →
  own_props h state !! "convictionStakes"%string = Some (VRef arr) →
  h !! arr = Some (CArr xs) →
  red a state e h =
  (Resolved (VRef (length h)),
   <[arr := CArr (xs ++ [VRef (S (length h))])]>
     (h ++ [CObj (own_props h state); CObj (stake_literal e)])).
Proof.
  intros Hname Hsw Hprops Harr.
  rewrite reducer_to_switch by done.
  unfold generic_switch. apply strict_eq_str in Hname. rewrite Hname.
  replace (strict_eq (VStr (lit "StakeChanged")) (VStr (lit "ProposalAdded")))
    with false by (by vm_compute).
  replace (strict_eq (VStr (lit "StakeChanged")) (VStr (lit "StakeChanged")))
    with true by (by vm_compute).
  run. rewrite Hprops. cbn [from_option id]. heap_norm.
  by rewrite (lookup_old _ _ _ _ Harr).
Qed.

End ReducerFacts.

Section Executed.

Variable e : chain_event.
Variable h : heap.

Lemma flag_executed_run k v :
  is_object h v →
  flag_executed e v (h ++ k) =
  if has_id h (parseInt (returnValues e !! "id"%string)) v
  then (Resolved (VRef (length (h ++ k))),
        (h ++ k) ++ [CObj (<["executed"%string := VBool true]> (own_props h v))])
  else (Resolved v, h ++ k).
Proof.
  intros (l & m & -> & Hl). unfold flag_executed, has_id, field_of.
  unfold bind at 1. unfold get_field. rewrite (lookup_old _ _ _ _ Hl).
  cbn [own_props]. rewrite Hl.
  destruct (strict_eq _ _); [|done].
  unfold bind, spread, alloc. cbn [own_props].
  by rewrite (lookup_old _ _ _ _ Hl).
Qed.

Lemma mapM_flag_executed xs : ∀ k,
  Forall (is_object h) xs →
  ∃ ys k',
    mapM (flag_executed e) xs (h ++ k) = (Resolved ys, (h ++ k) ++ k') ∧
    length ys = length xs ∧
    ∀ i v, xs !! i = Some v →
      if has_id h (parseInt (returnValues e !! "id"%string)) v
      then ∃ l', ys !! i = Some (VRef l') ∧ h !! l' = None ∧
                 ((h ++ k) ++ k') !! l'
                 = Some (CObj (<["executed"%string := VBool true]> (own_props h v)))
      else ys !! i = Some v.
Proof.
  induction xs as [|x xs IH]; intros k Hall.
  - exists [], []. rewrite app_nil_r. split; [done|]. split; [done|].
    intros i v Hi. by rewrite lookup_nil in Hi.
  - apply Forall_cons in Hall as [Hx Hall].
    cbn [mapM]. unfold bind at 1. rewrite (flag_executed_run k x Hx).
    destruct (has_id h _ x) eqn:Hid.
    + rewrite <- app_assoc.
      destruct (IH (k ++ [CObj (<["executed"%string := VBool true]> (own_props h x))]) Hall)
        as (ys & k' & Hrun & Hlen & Hys).
      unfold bind at 1. rewrite Hrun. unfold ret.
      exists (VRef (length (h ++ k)) :: ys),
        ([CObj (<["executed"%string := VBool true]> (own_props h x))] ++ k').
      split; [by rewrite <- !app_assoc|]. split; [simpl; by rewrite Hlen|].
      intros [|i] v Hi.
      * injection Hi as <-. rewrite Hid. eexists. split; [done|]. split.
        -- apply lookup_ge_None_2. rewrite length_app. lia.
        -- cbn [app]. by rewrite list_lookup_middle.
      * specialize (Hys i v Hi). destruct (has_id h _ v); [|done].
        destruct Hys as (l' & ? & ? & Hl'). exists l'. split; [done|]. split; [done|].
        rewrite <- !app_assoc in Hl'. by rewrite <- !app_assoc.
    + destruct (IH k Hall) as (ys & k' & Hrun & Hlen & Hys).
      unfold bind at 1. rewrite Hrun. unfold ret.
      exists (x :: ys), k'. split; [done|]. split; [simpl; by rewrite Hlen|].
      intros [|i] v Hi.
      * injection Hi as <-. by rewrite Hid.
      * apply (Hys i v Hi).
Qed.

End Executed.

Section ReducerExecuted.

Variable addressesEqual : val → val → bool.
Variable toUtf8 : val → res val.
Variables SYNC_STATUS_SYNCING SYNC_STATUS_SYNCED : val.
Variables stakeTokenAddress vaultAddress requestTokenAddress : val.

Local Abbreviation red :=
  (reducer addressesEqual toUtf8 SYNC_STATUS_SYNCING SYNC_STATUS_SYNCED
     stakeTokenAddress vaultAddress requestTokenAddress).
Local Abbreviation to_switch :=
  (reaches_switch addressesEqual stakeTokenAddress vaultAddress requestTokenAddress).

Lemma ProposalExecuted_run a state e h arr xs :
  strict_eq (event e) (VStr (lit "ProposalExecuted")) = true →
  to_switch e = true →
  own_props h state !! "proposals"%string = Some (VRef arr) →
  h !! arr = Some (CArr xs) →
  Forall (is_object h) xs →
  ∃ (ys : list val) (k : heap),
    red a state e h =
      (Resolved (VRef (S (length (h ++ CObj (own_props h state) :: k)))),
       (h ++ CObj (own_props h state) :: k) ++
         [CArr ys;
          CObj (<["proposals"%string := VRef (length (h ++ CObj (own_props h state) :: k))]>
                  (own_props h state))]) ∧
    length ys = length xs ∧
    ∀ i v, xs !! i = Some v →
      if has_id h (parseInt (returnValues e !! "id"%string)) v
      then ∃ l', ys !! i = Some (VRef l') ∧ h !! l' = None ∧
                 (h ++ CObj (own_props h state) :: k) !! l'
                 = Some (CObj (<["executed"%string := VBool true]> (own_props h v)))
      else ys !! i = Some v.
Proof.
  intros Hname Hsw Hprops Harr Hall.
  rewrite (reducer_to_switch addressesEqual) by done.
  unfold generic_switch. apply strict_eq_str in Hname. rewrite Hname.
  replace (strict_eq (VStr (lit "ProposalExecuted")) (VStr (lit "ProposalAdded")))
    with false by (by vm_compute).
  replace (strict_eq (VStr (lit "ProposalExecuted")) (VStr (lit "StakeChanged")))
    with false by (by vm_compute).
  replace (strict_eq (VStr (lit "ProposalExecuted")) (VStr (lit "ProposalExecuted")))
    with true by (by vm_compute).
  destruct (mapM_flag_executed e h xs [CObj (own_props h state)] Hall)
    as (ys & k & Hrun & Hlen & Hys).
  exists ys, k. split; [|split; [done|]].
  - run. rewrite Hprops. cbn [from_option id].
    unfold call_map. rewrite (lookup_old _ _ _ _ Harr).
    unfold bind. rewrite Hrun. unfold alloc. heap_norm.
    rewrite own_props_alloc, length_app. cbn [length].
    do 3 f_equal. lia.
  - intros i v Hi. specialize (Hys i v Hi).
    destruct (has_id h _ v); [|done].
    destruct Hys as (l' & ? & ? & Hl'). exists l'.
    split; [done|]. split; [done|]. rewrite <- app_assoc in Hl'. exact Hl'.
Qed.

End ReducerExecuted.

(** ** Statements about single reductions *)

Section ReducerClaims.

Variable addressesEqual : val → val → bool.
Variable toUtf8 : val → res val.
Variables SYNC_STATUS_SYNCING SYNC_STATUS_SYNCED : val.
Variables stakeTokenAddress vaultAddress requestTokenAddress : val.

Local Abbreviation red :=
  (reducer addressesEqual toUtf8 SYNC_STATUS_SYNCING SYNC_STATUS_SYNCED
     stakeTokenAddress vaultAddress requestTokenAddress).
Local Abbreviation switch :=
  (generic_switch toUtf8 SYNC_STATUS_SYNCING SYNC_STATUS_SYNCED).
Local Abbreviation from_stake := (from_stake_token addressesEqual stakeTokenAddress).
Local Abbreviation to_switch :=
  (reaches_switch addressesEqual stakeTokenAddress vaultAddress requestTokenAddress).
Local Abbreviation is_unhandled :=
  (unhandled addressesEqual SYNC_STATUS_SYNCING SYNC_STATUS_SYNCED
     stakeTokenAddress vaultAddress requestTokenAddress).

(** C1, as amended.  For every store, state [S] and event that no case
    handles, the reducer resolves to a new object: its location is unused
    in the store it started from, so it is identical to no object that
    existed, [S] included; its own properties are those of [S] (the same
    values, hence the same [proposals] and [convictionStakes] arrays); and
    the store is only extended by that object. *)
Theorem reducer_unhandled_copies a state e h :
  is_unhandled e = true →
  red a state e h = (Resolved (VRef (length h)), h ++ [CObj (own_props h state)])
  ∧ h !! length h = None
  ∧ own_props (h ++ [CObj (own_props h state)]) (VRef (length h)) = own_props h state
  ∧ ∀ l, is_Some (h !! l) → strict_eq (VRef (length h)) (VRef l) = false.
Proof.
  intros H. split; [by apply unhandled_run|]. split; [apply lookup_fresh|].
  split; [apply own_props_alloc|].
  intros l [c Hl]. apply lookup_lt_Some in Hl. simpl.
  apply Nat.eqb_neq. lia.
Qed.

(** C3, as amended.  A [ProposalAdded] event that reaches the [switch],
    on a state whose [proposals] is an array, when the link decodes:
    exactly one element is appended to that array, a new object with
    [id] the parse of [returnValues.id], [name] the title,
    [requestedAmount] the parse of [returnValues.amount], [creator] the
    entity and [beneficiary] the beneficiary; its [link] is the decoded
    text when [returnValues.link] is not empty and is [returnValues.link]
    itself otherwise, a falsy link being kept as it is (the empty string,
    or [undefined] when absent); it has no [executed] property. *)
Theorem reducer_ProposalAdded a state e h arr xs link :
  strict_eq (event e) (VStr (lit "ProposalAdded")) = true →
  to_switch e = true →
  own_props h state !! "proposals"%string = Some (VRef arr) →
  h !! arr = Some (CArr xs) →
  decoded_link toUtf8 e = Resolved link →
  ∃ (s' : val) (p : loc) (h' : heap),
    red a state e h = (Resolved s', h') ∧
    array_of h' s' "proposals" = Some (xs ++ [VRef p]) ∧
    h !! p = None ∧
    h' !! p = Some (CObj (proposal_literal e link)) ∧
    field_of h' (VRef p) "id" = VNum (parseInt (returnValues e !! "id"%string)) ∧
    field_of h' (VRef p) "name" = rv e "title" ∧
    field_of h' (VRef p) "requestedAmount"
      = VNum (parseInt (returnValues e !! "amount"%string)) ∧
    field_of h' (VRef p) "creator" = rv e "entity" ∧
    field_of h' (VRef p) "beneficiary" = rv e "beneficiary" ∧
    field_of h' (VRef p) "link" = link ∧
    own_props h' (VRef p) !! "executed"%string = None ∧
    (∀ s, returnValues e !! "link"%string = Some s → s ≠ [] →
          toUtf8 (VStr s) = Resolved link) ∧
    (returnValues e !! "link"%string = Some [] → link = VStr []) ∧
    (returnValues e !! "link"%string = None → link = VUndef) ∧
    (to_boolean (rv e "link") = false → link = rv e "link") ∧
    (to_boolean (rv e "link") = true → toUtf8 (rv e "link") = Resolved link).
Proof.
  intros Hname Hsw Hprops Harr Hlink.
  assert (Hlt : (arr < length h)%nat) by (by eapply lookup_lt_Some).
  assert (Hp : (<[arr:=CArr (xs ++ [VRef (S (length h))])]>
                 (h ++ [CObj (own_props h state); CObj (proposal_literal e link)]))
               !! S (length h) = Some (CObj (proposal_literal e link))).
  { rewrite list_lookup_insert_ne by lia. apply lookup_at1. }
  eexists _, (S (length h)), _.
  split; [by apply (ProposalAdded_run addressesEqual)|].
  split.
  { apply array_of_lookup with arr.
    - rewrite (field_of_obj _ _ (own_props h state)); [by rewrite Hprops|].
      rewrite list_lookup_insert_ne by lia. apply lookup_at0.
    - rewrite list_lookup_insert_eq; [done|]. rewrite length_app. lia. }
  split; [apply lookup_ge_None_2; lia|].
  split; [done|].
  rewrite !(field_of_obj _ _ _ _ Hp), (own_props_obj _ _ _ Hp).
  unfold proposal_literal.
  repeat (split; [by simplify_map_eq|]).
  assert (Hfalsy : to_boolean (rv e "link") = false → link = rv e "link").
  { intros Hb. unfold decoded_link in Hlink. rewrite Hb in Hlink. congruence. }
  assert (Htruthy : to_boolean (rv e "link") = true → toUtf8 (rv e "link") = Resolved link).
  { intros Hb. unfold decoded_link in Hlink. by rewrite Hb in Hlink. }
  unfold decoded_link, rv in Hlink.
  split; [|split; [|split; [|split]]]; [| | |done|done].
  - intros s Hs Hne. rewrite Hs in Hlink. simpl in Hlink.
    rewrite bool_decide_eq_false_2 in Hlink by done. done.
  - intros Hs. rewrite Hs in Hlink. simpl in Hlink. congruence.
  - intros Hs. rewrite Hs in Hlink. simpl in Hlink. congruence.
Qed.

(** C4, as amended.  A [ProposalExecuted] event that reaches the
    [switch], on a state whose [proposals] is an array of objects, with [n]
    the parse of [returnValues.id]: the reducer resolves to a new state
    object whose [proposals] is a new array, of the same length; at each
    index, a proposal whose [id === n] is replaced by a new object with
    the same properties and [executed] set to [true] (each of them, when
    several have that [id]), and any other proposal stays the very same
    value; when [n] is [NaN] no [id] is [=== n], and the new array has the
    very same elements; the objects and arrays that existed are left as
    they were. *)
Theorem reducer_ProposalExecuted a state e h arr xs :
  strict_eq (event e) (VStr (lit "ProposalExecuted")) = true →
  to_switch e = true →
  own_props h state !! "proposals"%string = Some (VRef arr) →
  h !! arr = Some (CArr xs) →
  Forall (is_object h) xs →
  ∃ (s' arr' : loc) (ys : list val) (h' : heap),
    red a state e h = (Resolved (VRef s'), h') ∧
    (∀ (l : loc) (c : cell), h !! l = Some c → h' !! l = Some c) ∧
    h !! s' = None ∧
    own_props h' (VRef s') = <["proposals"%string := VRef arr']> (own_props h state) ∧
    h !! arr' = None ∧
    h' !! arr' = Some (CArr ys) ∧
    length ys = length xs ∧
    (∀ (i : nat) (v : val), xs !! i = Some v →
      if has_id h (parseInt (returnValues e !! "id"%string)) v
      then ∃ l' : loc,
             ys !! i = Some (VRef l') ∧ h !! l' = None ∧
             h' !! l' = Some (CObj (<["executed"%string := VBool true]> (own_props h v))) ∧
             field_of h' (VRef l') "executed" = VBool true
      else ys !! i = Some v ∧ own_props h' v = own_props h v) ∧
    (parseInt (returnValues e !! "id"%string) = S754_nan → ys = xs).
Proof.
  intros Hname Hsw Hprops Harr Hall.
  destruct (ProposalExecuted_run addressesEqual toUtf8 SYNC_STATUS_SYNCING
              SYNC_STATUS_SYNCED stakeTokenAddress vaultAddress requestTokenAddress
              a state e h arr xs Hname Hsw Hprops Harr Hall)
    as (ys & k & Hrun & Hlen & Hys).
  set (hk := h ++ CObj (own_props h state) :: k) in *.
  assert (Hhk : (length h < length hk)%nat).
  { unfold hk. rewrite length_app. simpl. lia. }
  exists (S (length hk)), (length hk), ys, (hk ++ [CArr ys;
    CObj (<["proposals"%string := VRef (length hk)]> (own_props h state))]).
  split; [done|]. split.
  { intros l c Hl. unfold hk. rewrite <- app_assoc. by apply lookup_old. }
  split; [apply lookup_ge_None_2; lia|].
  split; [apply own_props_obj, lookup_at1|].
  split; [apply lookup_ge_None_2; lia|].
  split; [apply lookup_at0|]. split; [done|].
  split; [|intros Hnan; apply list_eq; intros i; destruct (xs !! i) as [v|] eqn:Hi].
  2: { specialize (Hys i v Hi). by rewrite Hnan, has_id_nan in Hys. }
  2: { apply lookup_ge_None_2. rewrite Hlen. by apply lookup_ge_None_1. }
  intros i v Hi. specialize (Hys i v Hi).
  destruct (has_id h _ v).
  - destruct Hys as (l' & ? & ? & Hl'). exists l'.
    split; [done|]. split; [done|].
    assert (Hl'' : (hk ++ [CArr ys;
        CObj (<["proposals"%string := VRef (length hk)]> (own_props h state))]) !! l'
      = Some (CObj (<["executed"%string := VBool true]> (own_props h v))))
      by (by apply lookup_old).
    split; [done|]. rewrite (field_of_obj _ _ _ _ Hl''). by simplify_map_eq.
  - split; [done|].
    destruct (Forall_lookup_1 _ _ _ _ Hall Hi) as (l & m & -> & Hl).
    rewrite (own_props_obj _ _ _ Hl). apply own_props_obj.
    unfold hk. rewrite <- app_assoc. by apply lookup_old.
Qed.

(** The [switch] looks at the name, the parameters and the block number of
    an event, not at its address. *)
Lemma generic_switch_source nextState (e e' : chain_event) :
  event e' = event e → returnValues e' = returnValues e →
  blockNumber e' = blockNumber e →
  switch nextState e' = switch nextState e.
Proof.
  destruct e as [ev rvs bn ad], e' as [ev' rvs' bn' ad']. cbn.
  by intros -> -> ->.
Qed.

(** C5.  An event from the vault (and not from the stake token).

    When [returnValues.token] is the request token, the answer of
    [updateBalances] decides the result.  If it resolves to a list, the
    reducer resolves to a new state with the properties of the input state
    but for [requestToken], which is a new object made of the properties of
    the first balance (none for the empty list) and of [address], the
    event's token; if it is rejected, the reducer is rejected with the same
    reason and no state is made.  Every resolved result has that form, and
    the store the reducer started from is left as it was.  The [switch] is
    not run: the reducer does the same for every event with that address
    and token, whatever its name, its other parameters and its block
    number.

    When the token differs, the event is reduced as the [switch] reduces
    it, exactly as the same event from any other source that reaches the
    [switch], and whatever the collaborators would answer: a name that is
    no case of the [switch] gives back the copy of the state, and, for one,
    a [ProposalAdded] event is appended to [proposals]. *)
Theorem reducer_vault_dispatch a state e h :
  from_stake e = false →
  addressesEqual (address e) vaultAddress = true →
  (strict_eq (rv e "token") requestTokenAddress = true →
     (∀ (b : loc) (xs : list val),
        updateBalances a = Resolved (VRef b) → h !! b = Some (CArr xs) →
        red a state e h
        = (Resolved (VRef (S (S (length h)))),
           h ++ [CObj (own_props h state);
                 CObj (<["address"%string := rv e "token"]>
                         (own_props (h ++ [CObj (own_props h state)])
                            (default VUndef (head xs))));
                 CObj (<["requestToken"%string := VRef (S (length h))]>
                         (own_props h state))]))
     ∧ (∀ err : err,
          updateBalances a = Rejected err →
          red a state e h = (Rejected err, h ++ [CObj (own_props h state)]))
     ∧ (∀ (s' : val) (h' : heap), red a state e h = (Resolved s', h') →
          ∃ (r : loc) (balances first : val),
            updateBalances a = Resolved balances
            ∧ get_index0 balances (h ++ [CObj (own_props h state)])
              = (Resolved first, h ++ [CObj (own_props h state)])
            ∧ own_props h' s' = <["requestToken"%string := VRef r]> (own_props h state)
            ∧ h !! r = None
            ∧ own_props h' (VRef r)
              = <["address"%string := rv e "token"]>
                  (own_props (h ++ [CObj (own_props h state)]) first)
            ∧ ∀ (l : loc) (c : cell), h !! l = Some c → h' !! l = Some c)
     ∧ (∀ e' : chain_event,
          address e' = address e → rv e' "token" = rv e "token" →
          red a state e' h = red a state e h))
  ∧ (strict_eq (rv e "token") requestTokenAddress = false →
     red a state e h = switch (VRef (length h)) e (h ++ [CObj (own_props h state)])
     ∧ (∀ (a' : answers) (e' : chain_event),
          to_switch e' = true →
          event e' = event e → returnValues e' = returnValues e →
          blockNumber e' = blockNumber e →
          red a' state e' h = red a state e h)
     ∧ (switch_case SYNC_STATUS_SYNCING SYNC_STATUS_SYNCED e = false →
        red a state e h
        = (Resolved (VRef (length h)), h ++ [CObj (own_props h state)]))
     ∧ (∀ (arr : loc) (xs : list val) (link : val),
          strict_eq (event e) (VStr (lit "ProposalAdded")) = true →
          own_props h state !! "proposals"%string = Some (VRef arr) →
          h !! arr = Some (CArr xs) →
          decoded_link toUtf8 e = Resolved link →
          red a state e h
          = (Resolved (VRef (length h)),
             <[arr := CArr (xs ++ [VRef (S (length h))])]>
               (h ++ [CObj (own_props h state); CObj (proposal_literal e link)])))).
Proof.
  intros Hs Hv. split; intros Ht.
  - assert (Hdisp : ∀ e' : chain_event,
       address e' = address e → rv e' "token" = rv e "token" →
       red a state e' h =
       (let! requestToken := getRequestTokenSettings (rv e "token") (updateBalances a) in
        alloc (CObj (<["requestToken"%string := requestToken]> (own_props h state))))
         (h ++ [CObj (own_props h state)])).
    { intros e' Haddr Htok. rewrite reducer_dispatch. unfold from_stake_token in Hs.
      unfold from_stake_token, vault_token_event. rewrite Haddr, Htok, Hs, Hv, Ht.
      cbn [andb]. unfold bind at 1. unfold spread. by rewrite own_props_alloc. }
    pose proof (Hdisp e eq_refl eq_refl) as Hrun.
    split; [|split; [|split]].
    + intros b xs Hb Hxs. rewrite Hrun, Hb.
      unfold getRequestTokenSettings, bind, await, get_index0.
      rewrite (lookup_old _ _ _ _ Hxs). unfold spread, alloc. cbn [to_boolean].
      unfold ret. rewrite <- !app_assoc. cbn [app].
      rewrite !length_app. cbn [length].
      replace (length h + 1)%nat with (S (length h)) by lia.
      by replace (length h + 2)%nat with (S (S (length h))) by lia.
    + intros err Herr. rewrite Hrun, Herr. reflexivity.
    + intros s' h' Hres. rewrite Hrun in Hres.
      apply bind_resolved in Hres as (r & h1 & Hreq & Hres).
      apply getRequestTokenSettings_resolved in Hreq
        as (balances & first & Hb & Hfirst & -> & ->).
      unfold alloc in Hres. injection Hres as <- <-.
      exists (length (h ++ [CObj (own_props h state)])), balances, first.
      split; [done|]. split; [done|]. split.
      { apply own_props_obj. apply lookup_alloc. }
      split; [apply lookup_ge_None_2; rewrite length_app; lia|]. split.
      { apply own_props_obj. rewrite <- app_assoc. apply lookup_at0. }
      intros l c Hl. rewrite <- !app_assoc. by apply lookup_old.
    + intros e' Haddr Htok. by rewrite Hrun, (Hdisp e' Haddr Htok).
  - assert (Hsw : to_switch e = true).
    { unfold reaches_switch, vault_token_event. unfold from_stake_token in Hs.
      unfold from_stake_token. by rewrite Hs, Hv, Ht. }
    split; [by apply reducer_to_switch|]. split; [|split].
    + intros a' e' Hsw' Hev Hrv Hbn. rewrite !reducer_to_switch by done.
      by rewrite (generic_switch_source _ e e').
    + intros Hcase. rewrite reducer_to_switch by done. by apply switch_no_case.
    + intros arr xs link Hname Hprops Harr Hlink.
      by apply (ProposalAdded_run addressesEqual).
Qed.

End ReducerClaims.

(** ** The statements at concrete inputs *)

Lemma reducer_unhandled_copies_witness :
  unhandled strict_eq Ex.syncing Ex.synced Ex.stake Ex.vault Ex.token Ex.unknown_event = true
  ∧ Ex.reduce Ex.no_answer Ex.seed Ex.unknown_event Ex.seed_heap
    = (Resolved (VRef 3%nat), Ex.seed_heap ++ [CObj (own_props Ex.seed_heap Ex.seed)]).
Proof.
  split; [by vm_compute|].
  apply (reducer_unhandled_copies strict_eq (λ v, Resolved v) Ex.syncing Ex.synced
           Ex.stake Ex.vault Ex.token Ex.no_answer Ex.seed Ex.unknown_event Ex.seed_heap).
  by vm_compute.
Defined.

(** C1, as stated, fails: the event [NewPeriod] is handled by no case, and
    the reducer does not return the state it was given, the object at
    location 2, but another object. *)
Lemma reducer_unhandled_not_identity :
  unhandled strict_eq Ex.syncing Ex.synced Ex.stake Ex.vault Ex.token Ex.unknown_event = true
  ∧ (Ex.reduce Ex.no_answer Ex.seed Ex.unknown_event Ex.seed_heap).1 = Resolved (VRef 3%nat)
  ∧ (Ex.reduce Ex.no_answer Ex.seed Ex.unknown_event Ex.seed_heap).1 ≠ Resolved Ex.seed
  ∧ strict_eq (VRef 3%nat) Ex.seed = false.
Proof.
  split; [by vm_compute|]. split; [by vm_compute|]. split; [|by vm_compute].
  vm_compute. discriminate.
Qed.

(** C2: the code at the failing inputs.  Reducing [ProposalAdded] on the
    seed state leaves the array that the input state's [proposals] refers to
    with one element, where it had none, and likewise [StakeChanged] for
    [convictionStakes]: the input state is changed in place. *)
Theorem reducer_push_changes_input_state :
  array_of Ex.seed_heap Ex.seed "proposals" = Some []
  ∧ array_of (Ex.reduce Ex.no_answer Ex.seed Ex.proposal_added Ex.seed_heap).2
      Ex.seed "proposals" = Some [VRef 4%nat]
  ∧ array_of Ex.seed_heap Ex.seed "convictionStakes" = Some []
  ∧ array_of (Ex.reduce Ex.no_answer Ex.seed Ex.stake_changed Ex.seed_heap).2
      Ex.seed "convictionStakes" = Some [VRef 4%nat].
Proof. repeat split; by vm_compute. Qed.

Lemma reducer_ProposalAdded_witness :
  ∃ (s' : val) (p : loc) (h' : heap),
    Ex.reduce Ex.no_answer Ex.seed Ex.proposal_added Ex.seed_heap = (Resolved s', h')
    ∧ array_of h' s' "proposals" = Some ([] ++ [VRef p])
    ∧ field_of h' (VRef p) "link" = VStr [].
Proof.
  destruct (reducer_ProposalAdded strict_eq (λ v, Resolved v) Ex.syncing Ex.synced
              Ex.stake Ex.vault Ex.token Ex.no_answer Ex.seed Ex.proposal_added
              Ex.seed_heap 0%nat [] (VStr []))
    as (s' & p & h' & Hrun & Harr & _ & _ & _ & _ & _ & _ & _ & Hlink & _);
    [by vm_compute | by vm_compute | by vm_compute | by vm_compute | by vm_compute |].
  exists s', p, h'. by repeat split.
Defined.

(** C3, as stated, fails: for the event of the specification's own scenario,
    whose link is the empty string, the appended proposal has the empty
    string as [link], not [null], and [executed] reads [undefined], not
    [false]. *)
Lemma reducer_ProposalAdded_empty_link :
  (Ex.reduce Ex.no_answer Ex.seed Ex.proposal_added Ex.seed_heap).1 = Resolved (VRef 3%nat)
  ∧ array_of (Ex.reduce Ex.no_answer Ex.seed Ex.proposal_added Ex.seed_heap).2
      (VRef 3%nat) "proposals" = Some [VRef 4%nat]
  ∧ field_of (Ex.reduce Ex.no_answer Ex.seed Ex.proposal_added Ex.seed_heap).2
      (VRef 4%nat) "link" = VStr []
  ∧ strict_eq (VStr []) VNull = false
  ∧ field_of (Ex.reduce Ex.no_answer Ex.seed Ex.proposal_added Ex.seed_heap).2
      (VRef 4%nat) "executed" = VUndef
  ∧ strict_eq VUndef (VBool false) = false.
Proof. repeat split; by vm_compute. Qed.

Lemma reducer_ProposalExecuted_witness :
  ∃ (s' arr' : loc) (ys : list val) (h' : heap) (l' : loc),
    Ex.reduce Ex.no_answer Ex.two_proposals Ex.proposal_7_executed Ex.two_proposals_heap
    = (Resolved (VRef s'), h')
    ∧ h' !! arr' = Some (CArr ys)
    ∧ length ys = 2%nat
    ∧ ys !! 0%nat = Some (VRef l')
    ∧ Ex.two_proposals_heap !! l' = None
    ∧ field_of h' (VRef l') "executed" = VBool true
    ∧ ys !! 1%nat = Some (VRef 1%nat)
    ∧ own_props h' (VRef 1%nat) = own_props Ex.two_proposals_heap (VRef 1%nat).
Proof.
  destruct (reducer_ProposalExecuted strict_eq (λ v, Resolved v) Ex.syncing Ex.synced
              Ex.stake Ex.vault Ex.token Ex.no_answer Ex.two_proposals
              Ex.proposal_7_executed Ex.two_proposals_heap 2%nat [VRef 0%nat; VRef 1%nat])
    as (s' & arr' & ys & h' & Hrun & _ & _ & _ & _ & Harr & Hlen & Hall & _);
    [by vm_compute | by vm_compute | by vm_compute | by vm_compute | |].
  - repeat constructor; eexists _, _; (split; [reflexivity | by vm_compute]).
  - pose proof (Hall 0%nat (VRef 0%nat) eq_refl) as H0.
    pose proof (Hall 1%nat (VRef 1%nat) eq_refl) as H1.
    assert (E0 : has_id Ex.two_proposals_heap
                   (parseInt (returnValues Ex.proposal_7_executed !! "id"%string))
                   (VRef 0%nat) = true) by (by vm_compute).
    assert (E1 : has_id Ex.two_proposals_heap
                   (parseInt (returnValues Ex.proposal_7_executed !! "id"%string))
                   (VRef 1%nat) = false) by (by vm_compute).
    rewrite E0 in H0. rewrite E1 in H1.
    destruct H0 as (l' & Hy0 & Hnew & _ & Hex). destruct H1 as [Hy1 Hown].
    exists s', arr', ys, h', l'.
    split; [done|]. split; [done|]. split; [done|]. split; [done|].
    split; [done|]. split; [done|]. by split.
Defined.

(** C4, as stated, fails.  On the state whose only proposal is
    [{id: NaN, name: "a", executed: false}], the event
    [ProposalExecuted{id:"abc"}], whose id parses to [NaN]: the proposal of
    the resulting state is the same object, and its [executed] is still
    [false].  And on the state with the proposals of id 7 and 8, the event
    [ProposalExecuted{id:"7"}] that the stake token emits: the reducer
    resolves to the copy of the state, whose [proposals] is the array of
    the input state, not a new one, and [executed] of the proposal with id
    7 is still [false]. *)
Lemma reducer_ProposalExecuted_not_flagged :
  field_of Ex.unparsed_proposal_heap (VRef 0%nat) "id" = VNum S754_nan
  ∧ field_of Ex.unparsed_proposal_heap (VRef 0%nat) "executed" = VBool false
  ∧ parseInt (returnValues Ex.proposal_unparsed_executed !! "id"%string) = S754_nan
  ∧ (Ex.reduce Ex.no_answer Ex.unparsed_proposal Ex.proposal_unparsed_executed
       Ex.unparsed_proposal_heap).1 = Resolved (VRef 6%nat)
  ∧ array_of (Ex.reduce Ex.no_answer Ex.unparsed_proposal Ex.proposal_unparsed_executed
                Ex.unparsed_proposal_heap).2 (VRef 6%nat) "proposals" = Some [VRef 0%nat]
  ∧ field_of (Ex.reduce Ex.no_answer Ex.unparsed_proposal Ex.proposal_unparsed_executed
                Ex.unparsed_proposal_heap).2 (VRef 0%nat) "executed" = VBool false
  ∧ field_of Ex.two_proposals_heap (VRef 0%nat) "id" = VNum (num_of_Z 7)
  ∧ field_of Ex.two_proposals_heap (VRef 0%nat) "executed" = VBool false
  ∧ strict_eq (event Ex.proposal_7_executed_by_stake) (VStr (lit "ProposalExecuted")) = true
  ∧ parseInt (returnValues Ex.proposal_7_executed_by_stake !! "id"%string) = num_of_Z 7
  ∧ (Ex.reduce Ex.no_answer Ex.two_proposals Ex.proposal_7_executed_by_stake
       Ex.two_proposals_heap).1 = Resolved (VRef 5%nat)
  ∧ field_of (Ex.reduce Ex.no_answer Ex.two_proposals Ex.proposal_7_executed_by_stake
                Ex.two_proposals_heap).2 (VRef 5%nat) "proposals"
    = field_of Ex.two_proposals_heap Ex.two_proposals "proposals"
  ∧ array_of (Ex.reduce Ex.no_answer Ex.two_proposals Ex.proposal_7_executed_by_stake
                Ex.two_proposals_heap).2 (VRef 5%nat) "proposals"
    = Some [VRef 0%nat; VRef 1%nat]
  ∧ field_of (Ex.reduce Ex.no_answer Ex.two_proposals Ex.proposal_7_executed_by_stake
                Ex.two_proposals_heap).2 (VRef 0%nat) "executed" = VBool false.
Proof. repeat split; by vm_compute. Qed.

Lemma reducer_vault_dispatch_witness :
  Ex.reduce Ex.balances_answer Ex.seed Ex.vault_deposit Ex.balances_heap
  = (Resolved (VRef 7%nat),
     Ex.balances_heap
     ++ [CObj (own_props Ex.balances_heap Ex.seed);
         CObj (<["address"%string := VStr (lit "0xcc")]>
                 (<["symbol"%string := VStr (lit "DAI")]> ∅));
         CObj (<["requestToken"%string := VRef 6%nat]>
                 (own_props Ex.balances_heap Ex.seed))]).
Proof.
  apply (proj1 (proj1 (reducer_vault_dispatch strict_eq (λ v, Resolved v)
           Ex.syncing Ex.synced Ex.stake Ex.vault Ex.token Ex.balances_answer Ex.seed
           Ex.vault_deposit Ex.balances_heap ltac:(by vm_compute) ltac:(by vm_compute))
         ltac:(by vm_compute)) 3%nat [VRef 4%nat]); by vm_compute.
Defined.

(** ** retryEvery *)

Section RetryFacts.

Context {A : Type}.
Variable callback : nat → res A.
Variables initialRetryTimer increaseFactor : jsnum.
Variable maxRetries : Z.

(** When every invocation fails, a run that is [d] retries away from the
    budget makes [d + 1] more invocations and sleeps [d] times. *)
Lemma attempt_always_fails (errs : nat → err) :
  (∀ k, callback k = Rejected (errs k)) →
  ∀ (d fuel : nat) (timer : jsnum) (st : retry_state),
    retryNum st + Z.of_nat d = maxRetries →
    (d < fuel)%nat →
    ∃ slept : list jsnum,
      attempt callback increaseFactor maxRetries fuel timer st
      = Some (Rejected (errs (calls st + d)%nat),
              {| calls := S (calls st + d); retryNum := maxRetries;
                 sleeps := sleeps st ++ slept |})
      ∧ length slept = d.
Proof.
  intros Hfail. induction d as [|d IH]; intros fuel timer st Hnum Hfuel.
  - destruct fuel as [|fuel]; [lia|]. exists [].
    cbn [attempt]. rewrite Hfail.
    replace (retryNum st =? maxRetries) with true by (symmetry; apply Z.eqb_eq; lia).
    rewrite Nat.add_0_r, app_nil_r. split; [|done]. do 3 f_equal. lia.
  - destruct fuel as [|fuel]; [lia|].
    cbn [attempt]. rewrite Hfail.
    replace (retryNum st =? maxRetries) with false by (symmetry; apply Z.eqb_neq; lia).
    cbn [calls retryNum sleeps].
    destruct (IH fuel (num_mul timer increaseFactor)
                {| calls := S (calls st); retryNum := retryNum st + 1;
                   sleeps := sleeps st ++ [num_mul timer increaseFactor] |})
      as (slept & Hrun & Hlen); [cbn; lia | lia |].
    exists (num_mul timer increaseFactor :: slept).
    rewrite Hrun. cbn [calls retryNum sleeps]. split; [|simpl; lia].
    rewrite <- app_assoc. cbn [app].
    replace (S (calls st) + d)%nat with (calls st + S d)%nat by lia. done.
Qed.

(** With a negative budget the counter never meets it: a callback that
    always fails is retried for ever. *)
Lemma attempt_negative_budget (errs : nat → err) :
  (∀ k, callback k = Rejected (errs k)) →
  maxRetries < 0 →
  ∀ (fuel : nat) (timer : jsnum) (st : retry_state),
    0 <= retryNum st →
    attempt callback increaseFactor maxRetries fuel timer st = None.
Proof.
  intros Hfail Hneg. induction fuel as [|fuel IH]; intros timer st Hnum; [done|].
  cbn [attempt]. rewrite Hfail.
  replace (retryNum st =? maxRetries) with false by (symmetry; apply Z.eqb_neq; lia).
  apply IH. cbn. lia.
Qed.

End RetryFacts.

(** C7.  When every invocation of the operation fails and the budget is
    [n], [retryEvery] settles (any bound of more than [n] invocations is
    enough): it is rejected with the error of invocation number [n + 1],
    after exactly [n + 1] invocations and [n] delays; with [n = 0] that is
    one invocation and no delay. *)
Theorem retryEvery_always_failing {A : Type} (callback : nat → res A)
    (initialRetryTimer increaseFactor : jsnum) (errs : nat → err) (n fuel : nat) :
  (∀ k, callback k = Rejected (errs k)) →
  (n < fuel)%nat →
  ∃ st : retry_state,
    retryEvery callback initialRetryTimer increaseFactor (Z.of_nat n) fuel
    = Some (Rejected (errs n), st)
    ∧ calls st = S n
    ∧ retryNum st = Z.of_nat n
    ∧ length (sleeps st) = n
    ∧ (n = 0%nat → sleeps st = []).
Proof.
  intros Hfail Hfuel. unfold retryEvery.
  destruct (attempt_always_fails callback increaseFactor (Z.of_nat n) errs Hfail
              n fuel initialRetryTimer {| calls := 0; retryNum := 0; sleeps := [] |})
    as (slept & Hrun & Hlen); [cbn; lia | done |].
  eexists. split; [exact Hrun|]. cbn. repeat split; try done.
  intros ->. by destruct slept.
Qed.

Lemma retryEvery_always_failing_witness :
  ∃ st : retry_state,
    retryEvery (λ k, @Rejected nat (Failure (VNum (num_of_Z (Z.of_nat k)))))
      (num_of_Z 1000) (num_of_Z 3) 3 5
    = Some (Rejected (Failure (VNum (num_of_Z 3))), st)
    ∧ calls st = 4%nat.
Proof.
  destruct (retryEvery_always_failing
              (λ k, @Rejected nat (Failure (VNum (num_of_Z (Z.of_nat k)))))
              (num_of_Z 1000) (num_of_Z 3)
              (λ k, Failure (VNum (num_of_Z (Z.of_nat k)))) 3 5)
    as (st & Hrun & Hcalls & _); [done | lia |].
  exists st. by split.
Defined.

(** ** initState and getRequestTokenSettings *)

Section InitStateFacts.

Variable hasLoadedTokenSettings : heap → val → bool.
Variable to_label : heap → val → res jsstring.
Variable requestTokenAddress : val.

Local Abbreviation init :=
  (initState hasLoadedTokenSettings to_label requestTokenAddress).

Lemma get_field_store v k h : (get_field v k h).2 = h.
Proof.
  unfold get_field. destruct v as [| | | | | |l]; try done.
  by destruct (h !! l) as [[m|xs]|].
Qed.

Lemma get_field_resolved v k h x h' :
  get_field v k h = (Resolved x, h') → h' = h.
Proof. intros H. pose proof (get_field_store v k h) as Hs. by rewrite H in Hs. Qed.

Lemma identify_label_resolved s r h x h' :
  identify_label to_label s r h = (Resolved x, h') → h' = h.
Proof.
  unfold identify_label. intros H.
  apply bind_resolved in H as (? & h1 & H1 & H).
  apply get_field_resolved in H1 as ->.
  apply bind_resolved in H as (? & h1 & H1 & H). injection H1 as _ <-.
  apply bind_resolved in H as (? & h1 & H1 & H).
  apply get_field_resolved in H1 as ->.
  apply bind_resolved in H as (? & h1 & H1 & H). injection H1 as _ <-.
  by injection H as _ <-.
Qed.

(** The shape of every state [initState] resolves to. *)
Lemma initState_resolved a cachedState h s h' :
  init a cachedState h = (Resolved s, h') →
  ∃ (l r : loc) (m : gmap string val) (first : val) (h1 : heap),
    s = VRef l ∧ h !! l = None ∧ h' !! l = Some (CObj m) ∧
    m !! "isSyncing"%string = Some (VBool true) ∧
    m !! "requestToken"%string = Some (VRef r) ∧
    h' !! r = Some (CObj (<["address"%string := requestTokenAddress]> (own_props h1 first))) ∧
    (∀ (l0 : loc) (c : cell), h !! l0 = Some c → h' !! l0 = Some c).
Proof.
  unfold initState. intros H.
  apply bind_resolved in H as (cachedParams & h1 & H1 & H).
  assert (h1 = h) as ->.
  { destruct (to_boolean cachedState).
    - by apply get_field_resolved in H1.
    - by injection H1 as _ <-. }
  clear H1.
  apply bind_resolved in H as (globalParams & h1 & H1 & H).
  assert (Hh1 : ∃ k, h1 = h ++ k).
  { destruct (to_boolean cachedParams).
    - injection H1 as _ <-. exists []. by rewrite app_nil_r.
    - unfold loadGlobalParams in H1.
      apply bind_resolved in H1 as (? & ? & [= _ <-] & H1).
      apply bind_resolved in H1 as (? & ? & [= _ <-] & H1).
      apply bind_resolved in H1 as (? & ? & [= _ <-] & H1).
      injection H1 as _ <-. by eexists. }
  destruct Hh1 as (k1 & ->). clear H1.
  apply bind_resolved in H as (loaded & h1 & [= _ <-] & H).
  apply bind_resolved in H as (stakeTokenSettings & h1 & H1 & H).
  assert (h1 = h ++ k1) as ->.
  { destruct loaded.
    - by apply get_field_resolved in H1.
    - by injection H1 as _ <-. }
  clear H1.
  apply bind_resolved in H as (requestTokenSettings & h1 & H1 & H).
  apply getRequestTokenSettings_resolved in H1 as (balances & first & _ & _ & -> & ->).
  apply bind_resolved in H as (label & h1 & H1 & H).
  apply identify_label_resolved in H1 as ->.
  revert H. run. intros [= <- <-].
  eexists _, (length h + length k1)%nat, _, first, (h ++ k1).
  split; [done|]. split; [apply lookup_ge_None_2; lia|].
  split.
  { rewrite lookup_app_r by lia. rewrite lookup_app_r by lia.
    by replace (S (S (S (length h + length k1))) - length h - length k1)%nat
      with 3%nat by lia. }
  split; [by simplify_map_eq|]. split; [by simplify_map_eq|].
  split.
  { rewrite lookup_app_r by lia. rewrite lookup_app_r by lia.
    by replace (length h + length k1 - length h - length k1)%nat with 0%nat by lia. }
  intros l0 c Hl. by apply lookup_old.
Qed.

(** C9.  Whatever the cached state [initState] is given (absent, or with
    any [isSyncing] of its own) and whatever the collaborators answer,
    the state it resolves to has [isSyncing === true]. *)
Theorem initState_isSyncing a cachedState h s h' :
  init a cachedState h = (Resolved s, h') →
  field_of h' s "isSyncing" = VBool true
  ∧ strict_eq (field_of h' s "isSyncing") (VBool true) = true.
Proof.
  intros H. apply initState_resolved in H
    as (l & r & m & first & h1 & -> & _ & Hl & Hsync & _).
  rewrite (field_of_obj _ _ _ _ Hl), Hsync. done.
Qed.

(** [initState] does resolve when the collaborators do: here with no
    settings taken from the cache. *)
Lemma initState_resolves a cachedState h d m w t b :
  decay a = Resolved d → maxRatio a = Resolved m → weight a = Resolved w →
  loadTokenSettings a = Resolved t → init_updateBalances a = Resolved b →
  (∀ h0, hasLoadedTokenSettings h0 cachedState = false) →
  t ≠ VUndef → t ≠ VNull → b ≠ VUndef → b ≠ VNull →
  (∀ h0 v, ∃ label, to_label h0 v = Resolved label) →
  ∃ (s : val) (h' : heap), init a cachedState h = (Resolved s, h').
Proof.
  intros Hd Hm Hw Ht Hb Hloaded Ht1 Ht2 Hb1 Hb2 Hlabel.
  unfold initState.
  assert (H1 : ∃ cachedParams,
    (if to_boolean cachedState then get_field cachedState "globalParams"
     else ret cachedState) h = (Resolved cachedParams, h)).
  { destruct cachedState as [| |[]|x|s| |l]; try (by eexists).
    - destruct (to_boolean (VNum x)); by eexists.
    - destruct (to_boolean (VStr s)); by eexists.
    - cbn [to_boolean]. unfold get_field. destruct (h !! l) as [[?|?]|]; by eexists. }
  destruct H1 as (cachedParams & H1). rewrite (bind_run _ _ _ _ _ H1).
  assert (H2 : ∃ globalParams k,
    (if to_boolean cachedParams then ret cachedParams else loadGlobalParams a) h
    = (Resolved globalParams, h ++ k)).
  { destruct (to_boolean cachedParams).
    - exists cachedParams, []. by rewrite app_nil_r.
    - unfold loadGlobalParams, bind, await, alloc. rewrite Hd, Hm, Hw. by eexists _, _. }
  destruct H2 as (globalParams & k & H2). rewrite (bind_run _ _ _ _ _ H2).
  unfold bind at 1. rewrite Hloaded.
  unfold bind at 1, await at 1. rewrite Ht.
  assert (H3 : ∃ first, get_index0 b (h ++ k) = (Resolved first, h ++ k)).
  { unfold get_index0. destruct b as [| | | |[|c s]| |l]; try done; try (by eexists).
    destruct ((h ++ k) !! l) as [[?|?]|]; by eexists. }
  destruct H3 as (first & H3).
  unfold bind at 1. unfold getRequestTokenSettings.
  rewrite Hb. unfold bind at 1, await at 1. unfold bind at 1. rewrite H3.
  unfold bind at 1, spread at 1. unfold bind at 1, alloc at 1. cbn [to_boolean]. unfold ret at 1.
  unfold bind at 1, identify_label.
  assert (H4 : ∃ x, get_field t "tokenSymbol"
      ((h ++ k) ++ [CObj (<["address"%string := requestTokenAddress]> (own_props (h ++ k) first))])
      = (Resolved x, (h ++ k) ++ [CObj (<["address"%string := requestTokenAddress]> (own_props (h ++ k) first))])).
  { unfold get_field. destruct t as [| | | | | |l]; try done; try (by eexists).
    destruct (_ !! l) as [[?|?]|]; by eexists. }
  destruct H4 as (x & H4). rewrite (bind_run _ _ _ _ _ H4).
  unfold bind at 1. destruct (Hlabel ((h ++ k) ++ [CObj (<["address"%string := requestTokenAddress]> (own_props (h ++ k) first))]) x) as (l1 & ->).
  unfold bind at 1, get_field at 1. rewrite lookup_alloc.
  unfold bind at 1.
  destruct (Hlabel ((h ++ k) ++ [CObj (<["address"%string := requestTokenAddress]> (own_props (h ++ k) first))])
     (default VUndef (<["address"%string := requestTokenAddress]> (own_props (h ++ k) first) !! "symbol"%string))) as (l2 & ->).
  unfold ret at 1. unfold bind, alloc, spread. by eexists _, _.
Qed.

End InitStateFacts.

Lemma initState_isSyncing_witness :
  (Ex.init Ex.init_answer Ex.cached Ex.cached_heap).1 = Resolved (VRef 10%nat)
  ∧ field_of (Ex.init Ex.init_answer Ex.cached Ex.cached_heap).2 (VRef 10%nat) "isSyncing"
    = VBool true.
Proof.
  split; [by vm_compute|].
  apply (initState_isSyncing (λ _ _, false) (λ _ _, Resolved []) Ex.token
           Ex.init_answer Ex.cached Ex.cached_heap (VRef 10%nat)
           (Ex.init Ex.init_answer Ex.cached Ex.cached_heap).2).
  by vm_compute.
Defined.

Section RequestTokenClaims.

Variable addressesEqual : val → val → bool.
Variable toUtf8 : val → res val.
Variables SYNC_STATUS_SYNCING SYNC_STATUS_SYNCED : val.
Variables stakeTokenAddress vaultAddress requestTokenAddress : val.
Variable hasLoadedTokenSettings : heap → val → bool.
Variable to_label : heap → val → res jsstring.

Local Abbreviation red :=
  (reducer addressesEqual toUtf8 SYNC_STATUS_SYNCING SYNC_STATUS_SYNCED
     stakeTokenAddress vaultAddress requestTokenAddress).
Local Abbreviation init :=
  (initState hasLoadedTokenSettings to_label requestTokenAddress).

(** C10.  When [updateBalances] resolves to a list, whatever its
    elements, [getRequestTokenSettings] resolves to a new object made of
    the own properties of the first element, if any, and of [address]; for
    the empty list that object is [{address}].  Whenever it resolves, on
    any answer, its result is that first object literal, which has the
    [address] property, so the [|| {}] alternative is never taken.  Hence
    [requestToken] is an object with an [address] in every state that
    [initState] resolves to and in every state that the reduction of a
    vault event about the request token resolves to. *)
Theorem getRequestTokenSettings_total (address : val) (h : heap) (a : loc) (xs : list val) :
  h !! a = Some (CArr xs) →
  getRequestTokenSettings address (Resolved (VRef a)) h
  = (Resolved (VRef (length h)),
     h ++ [CObj (<["address"%string := address]> (own_props h (default VUndef (head xs))))])
  ∧ (xs = [] →
     getRequestTokenSettings address (Resolved (VRef a)) h
     = (Resolved (VRef (length h)), h ++ [CObj (<["address"%string := address]> ∅)]))
  ∧ (∀ (r : res val) (h0 : heap) (v : val) (h' : heap),
       getRequestTokenSettings address r h0 = (Resolved v, h') →
       ∃ first : val,
         v = VRef (length h0)
         ∧ h' = h0 ++ [CObj (<["address"%string := address]> (own_props h0 first))]
         ∧ own_props h' v !! "address"%string = Some address)
  ∧ (∀ (ia : init_answers) (cachedState : val) (h0 : heap) (s : val) (h' : heap),
       init ia cachedState h0 = (Resolved s, h') →
       ∃ r : loc,
         field_of h' s "requestToken" = VRef r
         ∧ own_props h' (VRef r) !! "address"%string = Some requestTokenAddress)
  ∧ (∀ (ra : answers) (state : val) (e : chain_event) (h0 : heap) (s : val) (h' : heap),
       from_stake_token addressesEqual stakeTokenAddress e = false →
       vault_token_event addressesEqual vaultAddress requestTokenAddress e = true →
       red ra state e h0 = (Resolved s, h') →
       ∃ r : loc,
         field_of h' s "requestToken" = VRef r
         ∧ own_props h' (VRef r) !! "address"%string = Some (rv e "token")).
Proof.
  intros Ha.
  assert (Hrun : getRequestTokenSettings address (Resolved (VRef a)) h
    = (Resolved (VRef (length h)),
       h ++ [CObj (<["address"%string := address]> (own_props h (default VUndef (head xs))))])).
  { unfold getRequestTokenSettings, bind, await, get_index0, spread, alloc.
    by rewrite Ha. }
  split; [done|]. split; [by intros ->|]. split; [|split].
  - intros r h0 v h' H.
    apply getRequestTokenSettings_resolved in H as (balances & first & _ & _ & -> & ->).
    exists first. split; [done|]. split; [done|].
    rewrite own_props_alloc. by simplify_map_eq.
  - intros ia cachedState h0 s h' H.
    apply initState_resolved in H
      as (l & r & m & first & h1 & -> & _ & Hl & _ & Hreq & Hr & _).
    exists r. rewrite (field_of_obj _ _ _ _ Hl), Hreq. split; [done|].
    rewrite (own_props_obj _ _ _ Hr). by simplify_map_eq.
  - intros ra state e h0 s h' Hs Hv H.
    rewrite reducer_dispatch in H. rewrite Hs, Hv in H.
    apply bind_resolved in H as (props & h1 & [= <- <-] & H).
    apply bind_resolved in H as (r & h1 & H1 & H).
    apply getRequestTokenSettings_resolved in H1 as (balances & first & _ & _ & -> & ->).
    unfold alloc in H. injection H as <- <-.
    exists (length (h0 ++ [CObj (own_props h0 state)])). split.
    + rewrite (field_of_obj _ _ (<["requestToken"%string :=
          VRef (length (h0 ++ [CObj (own_props h0 state)]))]>
          (own_props (h0 ++ [CObj (own_props h0 state)]) (VRef (length h0))))).
      * by simplify_map_eq.
      * apply lookup_alloc.
    + erewrite own_props_obj; [|apply lookup_old, lookup_alloc].
      by simplify_map_eq.
Qed.

End RequestTokenClaims.

Lemma getRequestTokenSettings_total_witness :
  Ex.balances_heap !! 3%nat = Some (CArr [VRef 4%nat])
  ∧ getRequestTokenSettings Ex.token (Resolved (VRef 3%nat)) Ex.balances_heap
    = (Resolved (VRef 5%nat),
       Ex.balances_heap ++
         [CObj (<["address"%string := Ex.token]>
                  (own_props Ex.balances_heap (default VUndef (head [VRef 4%nat]))))]).
Proof.
  split; [by vm_compute|].
  apply (getRequestTokenSettings_total strict_eq (λ v, Resolved v) Ex.syncing Ex.synced
           Ex.stake Ex.vault Ex.token (λ _ _, false) (λ _ _, Resolved [])
           Ex.token Ex.balances_heap 3%nat [VRef 4%nat]).
  by vm_compute.
Defined.

(** ** parseInt *)

Lemma shr_1_nonneg mrs : 0 <= shr_m mrs → 0 <= shr_m (shr_1 mrs).
Proof. destruct mrs as [[|[p|p|]|p] r s]; simpl; lia. Qed.

Lemma iter_pos_shr_1_nonneg p : ∀ mrs, 0 <= shr_m mrs → 0 <= shr_m (SpecFloat.iter_pos shr_1 p mrs).
Proof.
  induction p as [p IH|p IH|]; intros mrs H; simpl.
  - apply IH, IH. by apply shr_1_nonneg.
  - by apply IH, IH.
  - by apply shr_1_nonneg.
Qed.

Lemma shr_fexp_nonneg prec emax m e l :
  0 <= m → 0 <= shr_m (shr_fexp prec emax m e l).1.
Proof.
  intros H. unfold shr_fexp, shr.
  assert (Hm : 0 <= shr_m (shr_record_of_loc m l)) by (by destruct l as [|[]]).
  destruct (fexp prec emax (Zdigits2 m + e) - e); simpl; [done| |done].
  by apply iter_pos_shr_1_nonneg.
Qed.

Lemma round_nearest_even_nonneg m l : 0 <= m → 0 <= round_nearest_even m l.
Proof.
  intros H. destruct l as [|[]]; simpl; try lia. destruct (Z.even m); lia.
Qed.

Lemma binary_round_aux_not_nan prec emax sx mx ex lx :
  0 <= mx → binary_round_aux prec emax sx mx ex lx ≠ S754_nan.
Proof.
  intros H. unfold binary_round_aux.
  pose proof (shr_fexp_nonneg prec emax mx ex lx H) as H1.
  destruct (shr_fexp prec emax mx ex lx) as [mrs' e']. simpl in H1.
  pose proof (shr_fexp_nonneg prec emax
    (round_nearest_even (shr_m mrs') (loc_of_shr_record mrs')) e' loc_Exact
    (round_nearest_even_nonneg _ _ H1)) as H2.
  destruct (shr_fexp prec emax _ e' loc_Exact) as [mrs'' e'']. simpl in H2.
  destruct (shr_m mrs''); [done| |lia].
  by destruct (e'' <=? emax - prec).
Qed.

Lemma num_of_Z_not_nan z : num_of_Z z ≠ S754_nan.
Proof.
  unfold num_of_Z, binary_normalize, binary_round.
  destruct z as [|m|m]; [done| |];
    destruct (shl_align _ _ _) as [mz ez]; by apply binary_round_aux_not_nan.
Qed.

(** The radix and the digits' text that [parseInt(x)] settles on. *)
Lemma parseInt_unfold x :
  parseInt x =
  let body := unsigned_body x in
  let R := if has_hex_prefix body then 16 else 10 in
  match take_digits R (if has_hex_prefix body then drop 2 body else body) with
  | [] => S754_nan
  | ds =>
      if digits_value R ds =? 0
      then S754_zero (sign_of (trim_start (default (lit "undefined") x)) =? -1)
      else num_of_Z (sign_of (trim_start (default (lit "undefined") x)) * digits_value R ds)
  end.
Proof. reflexivity. Qed.

Lemma parseInt_base10_unfold x :
  parseInt_base10 x =
  match take_digits 10 (unsigned_body x) with
  | [] => S754_nan
  | ds =>
      if digits_value 10 ds =? 0
      then S754_zero (sign_of (trim_start (default (lit "undefined") x)) =? -1)
      else num_of_Z (sign_of (trim_start (default (lit "undefined") x)) * digits_value 10 ds)
  end.
Proof. reflexivity. Qed.

Lemma parseInt_no_prefix x :
  has_hex_prefix (unsigned_body x) = false → parseInt x = parseInt_base10 x.
Proof. intros H. rewrite parseInt_unfold, parseInt_base10_unfold. cbv zeta. by rewrite H. Qed.

Lemma parseInt_nan_iff x :
  parseInt x = S754_nan ↔
  take_digits (if has_hex_prefix (unsigned_body x) then 16 else 10)
    (if has_hex_prefix (unsigned_body x) then drop 2 (unsigned_body x)
     else unsigned_body x) = [].
Proof.
  rewrite parseInt_unfold. cbv zeta.
  destruct (take_digits _ _) as [|d ds]; [done|].
  split; [|done]. destruct (_ =? 0); [done|]. intros H. by apply num_of_Z_not_nan in H.
Qed.

Section ParseClaims.

Variable addressesEqual : val → val → bool.
Variable toUtf8 : val → res val.
Variables SYNC_STATUS_SYNCING SYNC_STATUS_SYNCED : val.
Variables stakeTokenAddress vaultAddress requestTokenAddress : val.

Local Abbreviation red :=
  (reducer addressesEqual toUtf8 SYNC_STATUS_SYNCING SYNC_STATUS_SYNCED
     stakeTokenAddress vaultAddress requestTokenAddress).
Local Abbreviation to_switch :=
  (reaches_switch addressesEqual stakeTokenAddress vaultAddress requestTokenAddress).

(** C6, as amended.  The numeric fields are parsed by [parseInt] with no
    radix.  That is the base-10 parse unless the text, after leading white
    space and an optional sign, starts with [0x] or [0X], in which case
    what follows the prefix is read in base 16.  The parse is [NaN]
    exactly when no digit of that radix comes first; after a leading run
    of digits the rest of the text is ignored.  The number, [NaN]
    included, is what is stored: in [id] and [requestedAmount] of the
    object a [ProposalAdded] event appends, and in [proposal],
    [tokensStaked], [totalTokensStaked] and [conviction] of the object a
    [StakeChanged] event appends. *)
Theorem parseInt_fields a state e h :
  to_switch e = true →
  (∀ x, has_hex_prefix (unsigned_body x) = false → parseInt x = parseInt_base10 x)
  ∧ (∀ x, has_hex_prefix (unsigned_body x) = true →
       parseInt x =
       match take_digits 16 (drop 2 (unsigned_body x)) with
       | [] => S754_nan
       | ds =>
           if digits_value 16 ds =? 0
           then S754_zero (sign_of (trim_start (default (lit "undefined") x)) =? -1)
           else num_of_Z (sign_of (trim_start (default (lit "undefined") x))
                          * digits_value 16 ds)
       end)
  ∧ (∀ x, parseInt x = S754_nan ↔
       take_digits (if has_hex_prefix (unsigned_body x) then 16 else 10)
         (if has_hex_prefix (unsigned_body x) then drop 2 (unsigned_body x)
          else unsigned_body x) = [])
  ∧ (∀ (arr : loc) (xs : list val) (link : val),
       strict_eq (event e) (VStr (lit "ProposalAdded")) = true →
       own_props h state !! "proposals"%string = Some (VRef arr) →
       h !! arr = Some (CArr xs) →
       decoded_link toUtf8 e = Resolved link →
       ∃ p : loc,
         array_of (red a state e h).2 state "proposals" = Some (xs ++ [VRef p])
         ∧ field_of (red a state e h).2 (VRef p) "id"
           = VNum (parseInt (returnValues e !! "id"%string))
         ∧ field_of (red a state e h).2 (VRef p) "requestedAmount"
           = VNum (parseInt (returnValues e !! "amount"%string)))
  ∧ (∀ (arr : loc) (xs : list val),
       strict_eq (event e) (VStr (lit "StakeChanged")) = true →
       own_props h state !! "convictionStakes"%string = Some (VRef arr) →
       h !! arr = Some (CArr xs) →
       ∃ p : loc,
         array_of (red a state e h).2 state "convictionStakes" = Some (xs ++ [VRef p])
         ∧ field_of (red a state e h).2 (VRef p) "proposal"
           = VNum (parseInt (returnValues e !! "id"%string))
         ∧ field_of (red a state e h).2 (VRef p) "tokensStaked"
           = VNum (parseInt (returnValues e !! "tokensStaked"%string))
         ∧ field_of (red a state e h).2 (VRef p) "totalTokensStaked"
           = VNum (parseInt (returnValues e !! "totalTokensStaked"%string))
         ∧ field_of (red a state e h).2 (VRef p) "conviction"
           = VNum (parseInt (returnValues e !! "conviction"%string))).
Proof.
  intros Hsw. split; [apply parseInt_no_prefix|]. split.
  { intros x Hx. rewrite parseInt_unfold. cbv zeta. by rewrite Hx. }
  split; [apply parseInt_nan_iff|]. split.
  - intros arr xs link Hname Hprops Harr Hlink.
    rewrite (ProposalAdded_run addressesEqual toUtf8 SYNC_STATUS_SYNCING
               SYNC_STATUS_SYNCED stakeTokenAddress vaultAddress requestTokenAddress
               a state e h arr xs link Hname Hsw Hprops Harr Hlink).
    cbn [snd]. exists (S (length h)).
    assert (Hlt : (arr < length h)%nat) by (by eapply lookup_lt_Some).
    assert (Hp : (<[arr:=CArr (xs ++ [VRef (S (length h))])]>
                   (h ++ [CObj (own_props h state); CObj (proposal_literal e link)]))
                 !! S (length h) = Some (CObj (proposal_literal e link))).
    { rewrite list_lookup_insert_ne by lia. apply lookup_at1. }
    split.
    { apply array_of_lookup with arr.
      - unfold field_of.
        by rewrite (own_props_insert_array _ _ _ _ _ _ _ _ Harr Hprops).
      - rewrite list_lookup_insert_eq; [done|]. rewrite length_app. lia. }
    rewrite !(field_of_obj _ _ _ _ Hp). unfold proposal_literal.
    split; by simplify_map_eq.
  - intros arr xs Hname Hprops Harr.
    rewrite (StakeChanged_run addressesEqual toUtf8 SYNC_STATUS_SYNCING
               SYNC_STATUS_SYNCED stakeTokenAddress vaultAddress requestTokenAddress
               a state e h arr xs Hname Hsw Hprops Harr).
    cbn [snd]. exists (S (length h)).
    assert (Hlt : (arr < length h)%nat) by (by eapply lookup_lt_Some).
    assert (Hp : (<[arr:=CArr (xs ++ [VRef (S (length h))])]>
                   (h ++ [CObj (own_props h state); CObj (stake_literal e)]))
                 !! S (length h) = Some (CObj (stake_literal e))).
    { rewrite list_lookup_insert_ne by lia. apply lookup_at1. }
    split.
    { apply array_of_lookup with arr.
      - unfold field_of.
        by rewrite (own_props_insert_array _ _ _ _ _ _ _ _ Harr Hprops).
      - rewrite list_lookup_insert_eq; [done|]. rewrite length_app. lia. }
    rewrite !(field_of_obj _ _ _ _ Hp). unfold stake_literal.
    repeat split; by simplify_map_eq.
Qed.

End ParseClaims.

(** ** How a reduction changes the store *)

Lemma heap_le_refl h : heap_le h h.
Proof. intros l. split; [done|]. intros xs H. exists []. by rewrite app_nil_r. Qed.

Lemma heap_le_trans h1 h2 h3 : heap_le h1 h2 → heap_le h2 h3 → heap_le h1 h3.
Proof.
  intros H12 H23 l. destruct (H12 l) as [Ho Ha]. split.
  - intros m H. by apply (H23 l), Ho.
  - intros xs H. destruct (Ha xs H) as (ys & H2).
    destruct (proj2 (H23 l) _ H2) as (zs & H3).
    exists (ys ++ zs). by rewrite app_assoc.
Qed.

Lemma heap_le_app h k : heap_le h (h ++ k).
Proof.
  intros l. split.
  - intros m H. by apply lookup_old.
  - intros xs H. exists []. rewrite app_nil_r. by apply lookup_old.
Qed.

Lemma heap_le_push h a xs ys :
  h !! a = Some (CArr xs) → heap_le h (<[a := CArr (xs ++ ys)]> h).
Proof.
  intros Ha l. destruct (decide (l = a)) as [->|Hne].
  - rewrite list_lookup_insert_eq by (by eapply lookup_lt_Some).
    split; [congruence|]. intros xs' H. rewrite Ha in H. injection H as <-. by exists ys.
  - rewrite list_lookup_insert_ne by done. split; [done|].
    intros xs' H. exists []. by rewrite app_nil_r.
Qed.

Lemma kept_mono h h' v v' : heap_le h h' → kept h v v' → kept h' v v'.
Proof.
  intros Hle [->|(l & l' & m & -> & -> & Hl & Hl')]; [by left|].
  right. exists l, l', m. repeat split; try done; by apply Hle.
Qed.

Lemma kept_trans h v1 v2 v3 : kept h v1 v2 → kept h v2 v3 → kept h v1 v3.
Proof.
  intros [->|(l & l' & m & -> & -> & Hl & Hl')]; [done|].
  intros [->|(k & k' & m' & Hk & -> & Hk1 & Hk2)].
  - right. by exists l, l', m.
  - injection Hk as <-. rewrite Hl' in Hk1. injection Hk1 as <-.
    rewrite insert_insert_eq in Hk2. right. by exists l, k', m.
Qed.

Lemma extends_refl h xs : extends h xs xs.
Proof.
  exists xs, []. rewrite app_nil_r. split; [done|].
  apply Forall2_same_length_lookup_2; [done|]. intros i x y Hx Hy. left. congruence.
Qed.

Lemma extends_app h xs ys : extends h xs (xs ++ ys).
Proof.
  exists xs, ys. split; [done|].
  apply Forall2_same_length_lookup_2; [done|]. intros i x y Hx Hy. left. congruence.
Qed.

Lemma extends_trans h1 h2 xs1 xs2 xs3 :
  heap_le h1 h2 → extends h1 xs1 xs2 → extends h2 xs2 xs3 → extends h2 xs1 xs3.
Proof.
  intros Hle (zs & ws & -> & H12) (zs' & ws' & -> & H23).
  apply Forall2_app_inv_l in H23 as (zs1 & zs2 & Hz1 & Hz2 & ->).
  exists zs1, (zs2 ++ ws'). split; [by rewrite app_assoc|].
  apply Forall2_same_length_lookup_2.
  - apply Forall2_length in H12, Hz1. congruence.
  - intros i x z Hx Hz.
    destruct (Forall2_lookup_l _ _ _ _ _ H12 Hx) as (y & Hy & Hxy).
    destruct (Forall2_lookup_l _ _ _ _ _ Hz1 Hy) as (z' & Hz' & Hyz).
    assert (z' = z) as -> by congruence.
    eapply kept_trans; [by eapply kept_mono|done].
Qed.

Lemma extends_length h xs xs' : extends h xs xs' → (length xs ≤ length xs')%nat.
Proof.
  intros (zs & ws & -> & H). apply Forall2_length in H. rewrite length_app. lia.
Qed.

(** The primitives, when they resolve. *)

Lemma call_push_resolved target x h u h' :
  call_push target x h = (Resolved u, h') →
  ∃ a xs, target = VRef a ∧ h !! a = Some (CArr xs) ∧ h' = <[a := CArr (xs ++ [x])]> h.
Proof.
  unfold call_push. destruct target as [| | | | | |a]; try discriminate.
  destruct (h !! a) as [[m|xs]|] eqn:Ha; try discriminate.
  intros [= _ <-]. by exists a, xs.
Qed.

Lemma lookup_method_resolved target h u h' :
  lookup_method target h = (Resolved u, h') → h' = h.
Proof. unfold lookup_method. by destruct target; intros [= <-]. Qed.

Lemma flag_executed_resolved e x h y h' :
  flag_executed e x h = (Resolved y, h') → heap_le h h' ∧ kept h' x y.
Proof.
  unfold flag_executed. intros H.
  apply bind_resolved in H as (pid & h1 & Hpid & H).
  pose proof (get_field_store x "id" h) as Hs. rewrite Hpid in Hs. simpl in Hs. subst h1.
  destruct (strict_eq pid _) eqn:Heq.
  - revert H. unfold bind, spread, alloc. intros [= <- <-].
    split; [apply heap_le_app|].
    unfold get_field in Hpid. destruct x as [| | | | | |l]; try discriminate;
      try (injection Hpid as <-; discriminate).
    destruct (h !! l) as [[m|xs]|] eqn:Hl;
      try (injection Hpid as <-; discriminate).
    right. exists l, (length h), m. split; [done|]. split; [done|].
    split; [by apply lookup_old|].
    unfold own_props. rewrite Hl. apply lookup_alloc.
  - injection H as <- <-. split; [apply heap_le_refl|by left].
Qed.

Lemma mapM_flag_resolved e xs : ∀ h ys h',
  mapM (flag_executed e) xs h = (Resolved ys, h') →
  heap_le h h' ∧ Forall2 (kept h') xs ys.
Proof.
  induction xs as [|x xs IH]; intros h ys h' H.
  - injection H as <- <-. split; [apply heap_le_refl|constructor].
  - cbn [mapM] in H.
    apply bind_resolved in H as (y & h1 & Hy & H).
    apply bind_resolved in H as (ys' & h2 & Hys & H).
    injection H as <- <-.
    apply flag_executed_resolved in Hy as [Hle1 Hk].
    apply IH in Hys as [Hle2 Hall].
    split; [by eapply heap_le_trans|].
    constructor; [by eapply kept_mono|done].
Qed.

Lemma call_map_flag_resolved e target h v h' :
  call_map target (flag_executed e) h = (Resolved v, h') →
  ∃ (a a' : loc) (xs ys : list val),
    target = VRef a ∧ h !! a = Some (CArr xs) ∧ v = VRef a' ∧ h !! a' = None ∧
    h' !! a' = Some (CArr ys) ∧ heap_le h h' ∧ Forall2 (kept h') xs ys.
Proof.
  unfold call_map. destruct target as [| | | | | |a]; try discriminate.
  destruct (h !! a) as [[m|xs]|] eqn:Ha; try discriminate.
  intros H. apply bind_resolved in H as (ys & h1 & Hys & H).
  unfold alloc in H. injection H as <- <-.
  apply mapM_flag_resolved in Hys as [Hle Hall].
  exists a, (length h1), xs, ys. split; [done|]. split; [done|]. split; [done|].
  assert (Hlen : (length h ≤ length h1)%nat).
  { destruct (decide (length h ≤ length h1)%nat) as [|Hn]; [done|].
    destruct (lookup_lt_is_Some_2 h (length h1)) as [c Hc]; [lia|].
    destruct c as [m|zs].
    - apply Hle in Hc. apply lookup_lt_Some in Hc. lia.
    - apply Hle in Hc as (? & Hc). apply lookup_lt_Some in Hc. lia. }
  split; [apply lookup_ge_None_2; lia|].
  split; [apply lookup_alloc|].
  split; [eapply heap_le_trans; [done|apply heap_le_app]|].
  eapply Forall2_impl; [done|]. intros x y. apply kept_mono, heap_le_app.
Qed.

Lemma get_field_obj_resolved l k h props x h' :
  h !! l = Some (CObj props) →
  get_field (VRef l) k h = (Resolved x, h') →
  x = default VUndef (props !! k) ∧ h' = h.
Proof. unfold get_field. intros ->. by intros [= <- <-]. Qed.

Lemma spread_resolved v h x h' :
  spread v h = (Resolved x, h') → x = own_props h v ∧ h' = h.
Proof. by intros [= <- <-]. Qed.

Lemma default_is_ref (o : option val) a : default VUndef o = VRef a → o = Some (VRef a).
Proof. destruct o; simpl; congruence. Qed.

Section FoldFacts.

Variable addressesEqual : val → val → bool.
Variable toUtf8 : val → res val.
Variables SYNC_STATUS_SYNCING SYNC_STATUS_SYNCED : val.
Variables stakeTokenAddress vaultAddress requestTokenAddress : val.

Local Abbreviation red :=
  (reducer addressesEqual toUtf8 SYNC_STATUS_SYNCING SYNC_STATUS_SYNCED
     stakeTokenAddress vaultAddress requestTokenAddress).
Local Abbreviation switch :=
  (generic_switch toUtf8 SYNC_STATUS_SYNCING SYNC_STATUS_SYNCED).
Local Abbreviation fold :=
  (reduce_all addressesEqual toUtf8 SYNC_STATUS_SYNCING SYNC_STATUS_SYNCED
     stakeTokenAddress vaultAddress requestTokenAddress).

(** What a resolved [switch] leaves, for the copy [nextState] at [l]. *)
Lemma switch_step e h1 l props s' h' :
  h1 !! l = Some (CObj props) →
  switch (VRef l) e h1 = (Resolved s', h') →
  heap_le h1 h'
  ∧ own_props h' s' !! "convictionStakes"%string = props !! "convictionStakes"%string
  ∧ (own_props h' s' !! "proposals"%string = props !! "proposals"%string
     ∨ ∃ (a a' : loc) (xs ys : list val),
         props !! "proposals"%string = Some (VRef a) ∧ h1 !! a = Some (CArr xs) ∧
         own_props h' s' !! "proposals"%string = Some (VRef a') ∧
         h' !! a' = Some (CArr ys) ∧ Forall2 (kept h') xs ys).
Proof.
  intros Hl. unfold generic_switch.
  destruct (strict_eq (event e) (VStr (lit "ProposalAdded"))).
  { intros H.
    apply bind_resolved in H as (link & hA & [= _ <-] & H).
    apply bind_resolved in H as (p & hB & [= <- <-] & H).
    apply bind_resolved in H as (target & hC & Hget & H).
    apply (get_field_obj_resolved _ _ _ props) in Hget as [-> ->];
      [|by apply lookup_old].
    apply bind_resolved in H as (u & hD & Hpush & H).
    injection H as <- <-.
    apply call_push_resolved in Hpush as (a & xs & _ & Ha & ->).
    assert (Hle : heap_le h1 (<[a:=CArr (xs ++ [VRef (length h1)])]> (h1 ++ [CObj (proposal_literal e link)]))).
    { eapply heap_le_trans; [apply heap_le_app|by apply heap_le_push]. }
    split; [done|].
    rewrite (own_props_obj _ _ props) by (by apply Hle). by split; [|left]. }
  destruct (strict_eq (event e) (VStr (lit "StakeChanged"))).
  { intros H.
    apply bind_resolved in H as (target & hA & Hget & H).
    apply (get_field_obj_resolved _ _ _ props) in Hget as [-> ->]; [|done].
    apply bind_resolved in H as (u0 & hB & Hm & H).
    apply lookup_method_resolved in Hm as ->.
    apply bind_resolved in H as (p & hC & [= <- <-] & H).
    apply bind_resolved in H as (u & hD & Hpush & H).
    injection H as <- <-.
    apply call_push_resolved in Hpush as (a & xs & _ & Ha & ->).
    assert (Hle : heap_le h1 (<[a:=CArr (xs ++ [VRef (length h1)])]> (h1 ++ [CObj (stake_literal e)]))).
    { eapply heap_le_trans; [apply heap_le_app|by apply heap_le_push]. }
    split; [done|].
    rewrite (own_props_obj _ _ props) by (by apply Hle). by split; [|left]. }
  destruct (strict_eq (event e) (VStr (lit "ProposalExecuted"))).
  { intros H.
    apply bind_resolved in H as (props0 & hA & Hsp & H).
    apply spread_resolved in Hsp as [-> ->].
    rewrite (own_props_obj _ _ _ Hl) in H.
    apply bind_resolved in H as (target & hB & Hget & H).
    apply (get_field_obj_resolved _ _ _ props) in Hget as [-> ->]; [|done].
    apply bind_resolved in H as (u0 & hC & Hm & H).
    apply lookup_method_resolved in Hm as ->.
    apply bind_resolved in H as (mapped & hD & Hmap & H).
    apply call_map_flag_resolved in Hmap
      as (a & a' & xs & ys & Ht & Ha & -> & _ & Ha' & Hle & Hall).
    unfold alloc in H. injection H as <- <-.
    split; [eapply heap_le_trans; [done|apply heap_le_app]|].
    rewrite own_props_alloc. split; [by simplify_map_eq|].
    right. exists a, a', xs, ys. split; [by apply default_is_ref|].
    split; [done|]. split; [by simplify_map_eq|].
    split; [by apply lookup_old|].
    eapply Forall2_impl; [done|]. intros x y. apply kept_mono, heap_le_app. }
  destruct (strict_eq (event e) SYNC_STATUS_SYNCING).
  { intros H. apply bind_resolved in H as (props0 & hA & Hsp & H).
    apply spread_resolved in Hsp as [-> ->].
    rewrite (own_props_obj _ _ _ Hl) in H. unfold alloc in H. injection H as <- <-.
    split; [apply heap_le_app|]. rewrite own_props_alloc.
    split; [by simplify_map_eq|]. left. by simplify_map_eq. }
  destruct (strict_eq (event e) SYNC_STATUS_SYNCED).
  { intros H. apply bind_resolved in H as (props0 & hA & Hsp & H).
    apply spread_resolved in Hsp as [-> ->].
    rewrite (own_props_obj _ _ _ Hl) in H. unfold alloc in H. injection H as <- <-.
    split; [apply heap_le_app|]. rewrite own_props_alloc.
    split; [by simplify_map_eq|]. left. by simplify_map_eq. }
  intros [= <- <-]. split; [apply heap_le_refl|].
  rewrite (own_props_obj _ _ _ Hl). by split; [|left].
Qed.

(** What a resolved reduction leaves: the store has only grown, the
    state's [convictionStakes] is the same value, and its [proposals] is
    the same value or a new array of the kept elements. *)
Lemma reducer_step a state e h s' h' :
  red a state e h = (Resolved s', h') →
  heap_le h h'
  ∧ own_props h' s' !! "convictionStakes"%string
    = own_props h state !! "convictionStakes"%string
  ∧ (own_props h' s' !! "proposals"%string = own_props h state !! "proposals"%string
     ∨ ∃ (a a' : loc) (xs ys : list val),
         own_props h state !! "proposals"%string = Some (VRef a) ∧
         h !! a = Some (CArr xs) ∧
         own_props h' s' !! "proposals"%string = Some (VRef a') ∧
         h' !! a' = Some (CArr ys) ∧ Forall2 (kept h') xs ys).
Proof.
  rewrite reducer_dispatch.
  destruct (from_stake_token _ _ e).
  { unfold stake_token_switch.
    destruct (strict_eq (event e) (VStr (lit "Transfer"))).
    - intros H.
      apply bind_resolved in H as (supply & hA & [= _ <-] & H).
      apply bind_resolved in H as (props0 & hB & Hsp & H).
      apply spread_resolved in Hsp as [-> ->].
      rewrite own_props_alloc in H.
      apply bind_resolved in H as (st & hC & Hget & H).
      apply (get_field_obj_resolved _ _ _ (own_props h state)) in Hget as [-> ->];
        [|apply lookup_alloc].
      revert H. unfold bind, spread, alloc. intros [= <- <-].
      split; [rewrite <- !app_assoc; apply heap_le_app|].
      rewrite own_props_alloc. split; [by simplify_map_eq|]. left. by simplify_map_eq.
    - intros [= <- <-]. split; [apply heap_le_app|].
      rewrite own_props_alloc. by split; [|left]. }
  destruct (vault_token_event _ _ _ e).
  { intros H.
    apply bind_resolved in H as (props0 & hA & Hsp & H).
    apply spread_resolved in Hsp as [-> ->].
    rewrite own_props_alloc in H.
    apply bind_resolved in H as (r & hB & Hreq & H).
    apply getRequestTokenSettings_resolved in Hreq as (? & ? & _ & _ & -> & ->).
    unfold alloc in H. injection H as <- <-.
    split; [rewrite <- !app_assoc; apply heap_le_app|].
    rewrite own_props_alloc. split; [by simplify_map_eq|]. left. by simplify_map_eq. }
  intros H. apply (switch_step _ _ _ (own_props h state)) in H; [|apply lookup_alloc].
  destruct H as (Hle & Hst & Hpr).
  split; [eapply heap_le_trans; [apply heap_le_app|done]|]. split; [done|].
  destruct Hpr as [Hpr|(b & b' & xs & ys & Hp & Hb & Hp' & Hb' & Hall)]; [by left|].
  right. exists b, b', xs, ys. split; [done|]. split; [|done].
  destruct (decide (b < length h)%nat) as [Hlt|Hge].
  - by rewrite lookup_app_l in Hb.
  - pose proof (lookup_lt_Some _ _ _ Hb) as Hlt. rewrite length_app in Hlt. simpl in Hlt.
    assert (b = length h) as -> by lia. by rewrite lookup_alloc in Hb.
Qed.

Lemma reduce_all_grows es : ∀ state h s' h',
  fold state es h = (Resolved s', h') →
  heap_le h h'
  ∧ (∀ (a : loc) (xs : list val),
       own_props h state !! "proposals"%string = Some (VRef a) →
       h !! a = Some (CArr xs) →
       ∃ (a' : loc) (xs' : list val),
         own_props h' s' !! "proposals"%string = Some (VRef a') ∧
         h' !! a' = Some (CArr xs') ∧ extends h' xs xs')
  ∧ (∀ (c : loc) (ys : list val),
       own_props h state !! "convictionStakes"%string = Some (VRef c) →
       h !! c = Some (CArr ys) →
       ∃ ys' : list val,
         own_props h' s' !! "convictionStakes"%string = Some (VRef c) ∧
         h' !! c = Some (CArr (ys ++ ys'))).
Proof.
  induction es as [|[a e] es IH]; intros state h s' h' H.
  - injection H as <- <-. split; [apply heap_le_refl|]. split.
    + intros b xs Hp Hb. exists b, xs. split; [done|]. split; [done|]. apply extends_refl.
    + intros c ys Hc Hys. exists []. by rewrite app_nil_r.
  - cbn [reduce_all] in H.
    apply bind_resolved in H as (s1 & h1 & Hstep & H).
    apply reducer_step in Hstep as (Hle1 & Hst & Hpr).
    apply IH in H as (Hle2 & IHp & IHs).
    split; [by eapply heap_le_trans|]. split.
    + intros b xs Hp Hb.
      destruct Hpr as [Hpr|(b0 & b1 & xs0 & ys1 & Hp0 & Hb0 & Hp1 & Hb1 & Hall)].
      * destruct (proj2 (Hle1 b) xs Hb) as (zs & Hb1).
        destruct (IHp b (xs ++ zs)) as (a' & xs' & Hp' & Ha' & Hext);
          [congruence | done |].
        exists a', xs'. split; [done|]. split; [done|].
        eapply extends_trans; [exact Hle2 | apply (extends_app h1) | done].
      * assert (b0 = b) as -> by congruence.
        assert (xs0 = xs) as -> by congruence.
        destruct (IHp b1 ys1 Hp1 Hb1) as (a' & xs' & Hp' & Ha' & Hext).
        exists a', xs'. split; [done|]. split; [done|].
        eapply extends_trans; [exact Hle2 | | done].
        exists ys1, []. by rewrite app_nil_r.
    + intros c ys Hc Hys.
      destruct (proj2 (Hle1 c) ys Hys) as (zs & Hc1).
      destruct (IHs c (ys ++ zs)) as (ys' & Hc' & Hys'); [congruence | done |].
      exists (zs ++ ys'). split; [done|]. by rewrite app_assoc.
Qed.

Lemma array_of_inv (h : heap) s k xs :
  array_of h s k = Some xs →
  ∃ a : loc, own_props h s !! k = Some (VRef a) ∧ h !! a = Some (CArr xs).
Proof.
  unfold array_of, field_of. intros H.
  destruct (own_props h s !! k) as [[| | | | | |a]|]; try discriminate.
  exists a. split; [done|]. simpl in H.
  by destruct (h !! a) as [[?|?]|]; simplify_eq.
Qed.

(** C8.  However many events are folded through the reducer, from any
    state, when the fold resolves: nothing that was in the store has
    changed but that arrays have grown at their end; the elements that
    [proposals] had are all still there, in their order and at the start
    of the new [proposals] (each one the same value, or its copy with
    [executed] set), so its length has not decreased and what was added
    comes after; and [convictionStakes] is the same array, with its old
    elements unchanged at the start and the new ones after them.  The
    fold from any intermediate state being a fold again, this holds from
    each step to each later one. *)
Theorem reduce_all_append_only es state h s' h' :
  fold state es h = (Resolved s', h') →
  heap_le h h'
  ∧ (∀ xs : list val,
       array_of h state "proposals" = Some xs →
       ∃ xs' : list val,
         array_of h' s' "proposals" = Some xs' ∧ extends h' xs xs'
         ∧ (length xs ≤ length xs')%nat)
  ∧ (∀ ys : list val,
       array_of h state "convictionStakes" = Some ys →
       ∃ ys' : list val,
         array_of h' s' "convictionStakes" = Some (ys ++ ys')
         ∧ field_of h' s' "convictionStakes" = field_of h state "convictionStakes"
         ∧ (length ys ≤ length (ys ++ ys'))%nat).
Proof.
  intros H. apply reduce_all_grows in H as (Hle & Hp & Hs).
  split; [done|]. split.
  - intros xs Hxs. apply array_of_inv in Hxs as (a & Ha & Hxs).
    destruct (Hp a xs Ha Hxs) as (a' & xs' & Ha' & Hxs' & Hext).
    exists xs'. split; [|split; [done|by eapply extends_length]].
    apply array_of_lookup with a'; [|done]. unfold field_of. by rewrite Ha'.
  - intros ys Hys. apply array_of_inv in Hys as (c & Hc & Hys).
    destruct (Hs c ys Hc Hys) as (ys' & Hc' & Hys').
    exists ys'. split; [|split].
    + apply array_of_lookup with c; [|done]. unfold field_of. by rewrite Hc'.
    + unfold field_of. by rewrite Hc, Hc'.
    + rewrite length_app. lia.
Qed.

End FoldFacts.

Lemma parseInt_fields_witness :
  reaches_switch strict_eq Ex.stake Ex.vault Ex.token Ex.proposal_added_hex = true
  ∧ ∀ x, has_hex_prefix (unsigned_body x) = false → parseInt x = parseInt_base10 x.
Proof.
  split; [by vm_compute|].
  apply (parseInt_fields strict_eq (λ v, Resolved v) Ex.syncing Ex.synced
           Ex.stake Ex.vault Ex.token Ex.no_answer Ex.seed Ex.proposal_added_hex
           Ex.seed_heap).
  by vm_compute.
Defined.

(** C6, as stated, fails: the id ["0x10"] is parsed to 16, where the base-10
    parse gives 0, and 16 is what the appended proposal holds. *)
Lemma parseInt_hex_not_base10 :
  parseInt (Some (lit "0x10")) = num_of_Z 16
  ∧ parseInt_base10 (Some (lit "0x10")) = S754_zero false
  ∧ parseInt (Some (lit "0x10")) ≠ parseInt_base10 (Some (lit "0x10"))
  ∧ SFeqb (parseInt (Some (lit "0x10"))) (parseInt_base10 (Some (lit "0x10"))) = false
  ∧ field_of (Ex.reduce Ex.no_answer Ex.seed Ex.proposal_added_hex Ex.seed_heap).2
      (VRef 4%nat) "id" = VNum (num_of_Z 16).
Proof.
  split; [by vm_compute|]. split; [by vm_compute|]. split; [|split; by vm_compute].
  vm_compute. discriminate.
Qed.

Lemma reduce_all_append_only_witness :
  (Ex.reduce_events Ex.seed
     [(Ex.no_answer, Ex.proposal_added); (Ex.no_answer, Ex.stake_changed);
      (Ex.no_answer, Ex.proposal_executed)] Ex.seed_heap).1 = Resolved (VRef 10%nat)
  ∧ heap_le Ex.seed_heap
      (Ex.reduce_events Ex.seed
         [(Ex.no_answer, Ex.proposal_added); (Ex.no_answer, Ex.stake_changed);
          (Ex.no_answer, Ex.proposal_executed)] Ex.seed_heap).2.
Proof.
  split; [by vm_compute|].
  apply (reduce_all_append_only strict_eq (λ v, Resolved v) Ex.syncing Ex.synced
           Ex.stake Ex.vault Ex.token
           [(Ex.no_answer, Ex.proposal_added); (Ex.no_answer, Ex.stake_changed);
            (Ex.no_answer, Ex.proposal_executed)] Ex.seed Ex.seed_heap (VRef 10%nat)).
  by vm_compute.
Defined.

(** The scenario of the specification, end to end: one proposal with id 1,
    one stake at block 100, and the proposal executed. *)
Example scenario_end_to_end :
  let run := Ex.reduce_events Ex.seed
     [(Ex.no_answer, Ex.proposal_added); (Ex.no_answer, Ex.stake_changed);
      (Ex.no_answer, Ex.proposal_executed)] Ex.seed_heap in
  run.1 = Resolved (VRef 10%nat)
  ∧ array_of run.2 (VRef 10%nat) "proposals" = Some [VRef 8%nat]
  ∧ field_of run.2 (VRef 8%nat) "id" = VNum (num_of_Z 1)
  ∧ field_of run.2 (VRef 8%nat) "requestedAmount" = VNum (num_of_Z 500)
  ∧ field_of run.2 (VRef 8%nat) "executed" = VBool true
  ∧ array_of run.2 (VRef 10%nat) "convictionStakes" = Some [VRef 6%nat]
  ∧ field_of run.2 (VRef 6%nat) "time" = VNum (num_of_Z 100)
  ∧ field_of run.2 (VRef 6%nat) "conviction" = VNum (num_of_Z 5).
Proof. repeat split; by vm_compute. Qed.

(** A vault event about another token goes through the [switch], where its
    name is no case: the copy of the state comes back. *)
Example vault_other_token_falls_through :
  vault_token_event strict_eq Ex.vault Ex.token Ex.vault_deposit_other = false
  ∧ Ex.reduce Ex.balances_answer Ex.seed Ex.vault_deposit_other Ex.balances_heap
    = (Resolved (VRef 5%nat), Ex.balances_heap ++ [CObj (own_props Ex.balances_heap Ex.seed)]).
Proof. split; by vm_compute. Qed.

(** A callback that fails once and then succeeds is invoked twice, with one
    delay in between. *)
Example retryEvery_second_call_succeeds :
  retryEvery (λ k, match k with O => Rejected TypeError | S _ => Resolved 7 end)
    (num_of_Z 1000) (num_of_Z 3) 3 5
  = Some (Resolved 7, {| calls := 2; retryNum := 1; sleeps := [num_of_Z 3000] |}).
Proof. by vm_compute. Qed.

(** * Further properties *)

(** ** retryEvery, for every callback *)

Section RetryMore.

Context {A : Type}.
Variable callback : nat → res A.
Variable increaseFactor : jsnum.
Variable maxRetries : Z.

Lemma backoff_length (timer : jsnum) (d : nat) :
  length (backoff increaseFactor timer d) = d.
Proof. revert timer. induction d as [|d IH]; intros timer; simpl; [done|]. by rewrite IH. Qed.

Lemma backoff_lookup (d : nat) : ∀ (timer : jsnum) (i : nat) (x : jsnum),
  backoff increaseFactor timer d !! i = Some x →
  x = Nat.iter (S i) (λ t, num_mul t increaseFactor) timer.
Proof.
  induction d as [|d IH]; intros timer i x H; [done|].
  destruct i as [|i]; simpl in H.
  - by injection H as <-.
  - apply IH in H. rewrite H. symmetry.
    exact (Nat.iter_succ_r (S i) (λ t, num_mul t increaseFactor) timer).
Qed.

(** What a settled run has done, counted from the state it started in. *)
Lemma attempt_settled (fuel : nat) : ∀ (timer : jsnum) (st : retry_state)
    (r : res A) (st' : retry_state),
  attempt callback increaseFactor maxRetries fuel timer st = Some (r, st') →
  ∃ d : nat,
    calls st' = S (calls st + d)
    ∧ retryNum st' = retryNum st + Z.of_nat d
    ∧ sleeps st' = sleeps st ++ backoff increaseFactor timer d
    ∧ (∀ j : nat, (j < d)%nat →
         (∃ e, callback (calls st + j)%nat = Rejected e)
         ∧ retryNum st + Z.of_nat j ≠ maxRetries)
    ∧ callback (calls st + d)%nat = r
    ∧ (∀ e, r = Rejected e → retryNum st + Z.of_nat d = maxRetries).
Proof.
  induction fuel as [|fuel IH]; intros timer st r st' H; [done|].
  cbn [attempt] in H. destruct (callback (calls st)) as [a|e] eqn:Hc.
  - injection H as <- <-. exists 0%nat. cbn [calls retryNum sleeps backoff].
    rewrite Nat.add_0_r, Z.add_0_r, app_nil_r.
    split; [done|]. split; [done|]. split; [done|]. split; [intros j Hj; lia|].
    split; [done|]. intros e He. discriminate.
  - destruct (retryNum st =? maxRetries) eqn:Hn.
    + injection H as <- <-. exists 0%nat. cbn [calls retryNum sleeps backoff].
      rewrite Nat.add_0_r, Z.add_0_r, app_nil_r.
      split; [done|]. split; [done|]. split; [done|]. split; [intros j Hj; lia|].
      split; [done|]. intros e' _. by apply Z.eqb_eq.
    + apply IH in H as (d & Hcalls & Hnum & Hsl & Hrej & Hlast & Hbud).
      cbn [calls retryNum sleeps] in *.
      exists (S d). split; [lia|]. split; [lia|].
      split; [by rewrite Hsl, <- app_assoc|]. split.
      * intros [|j] Hj.
        -- rewrite Nat.add_0_r, Z.add_0_r. split; [by eexists|]. by apply Z.eqb_neq.
        -- destruct (Hrej j) as [He Hne]; [lia|].
           replace (calls st + S j)%nat with (S (calls st) + j)%nat by lia.
           split; [done|]. lia.
      * replace (calls st + S d)%nat with (S (calls st) + d)%nat by lia.
        split; [done|]. intros e' He'. specialize (Hbud e' He'). lia.
Qed.

(** With a budget that the counter has not passed, enough invocations
    settle the run, whatever the callback does. *)
Lemma attempt_settles (fuel : nat) : ∀ (timer : jsnum) (st : retry_state),
  retryNum st <= maxRetries →
  (Z.to_nat (maxRetries - retryNum st) < fuel)%nat →
  ∃ (r : res A) (st' : retry_state),
    attempt callback increaseFactor maxRetries fuel timer st = Some (r, st').
Proof.
  induction fuel as [|fuel IH]; intros timer st Hle Hfuel; [lia|].
  cbn [attempt]. destruct (callback (calls st)) as [a|e]; [by eexists _, _|].
  destruct (retryNum st =? maxRetries) eqn:Hn; [by eexists _, _|].
  apply Z.eqb_neq in Hn. apply IH; cbn [retryNum]; lia.
Qed.

End RetryMore.

(** X1.  Whatever the callback does, with a budget of [n] retries
    [retryEvery] settles once [n + 1] invocations are allowed: it settles as
    its last invocation did, after at most [n + 1] invocations, and a
    rejection comes only after exactly [n + 1]. *)
Theorem retryEvery_settles {A : Type} (callback : nat → res A)
    (initialRetryTimer increaseFactor : jsnum) (n fuel : nat) :
  (n < fuel)%nat →
  ∃ (r : res A) (st : retry_state),
    retryEvery callback initialRetryTimer increaseFactor (Z.of_nat n) fuel = Some (r, st)
    ∧ (1 ≤ calls st ≤ S n)%nat
    ∧ callback (calls st - 1)%nat = r
    ∧ (∀ j : nat, (j < calls st - 1)%nat → ∃ e, callback j = Rejected e)
    ∧ (∀ e, r = Rejected e → calls st = S n).
Proof.
  intros Hfuel. unfold retryEvery.
  destruct (attempt_settles callback increaseFactor (Z.of_nat n) fuel initialRetryTimer
              {| calls := 0; retryNum := 0; sleeps := [] |}) as (r & st & Hrun);
    [cbn; lia | cbn; lia |].
  exists r, st. split; [done|].
  apply attempt_settled in Hrun as (d & Hcalls & Hnum & Hsl & Hrej & Hlast & Hbud).
  cbn [calls retryNum sleeps] in *.
  assert (Hd : (d ≤ n)%nat).
  { destruct (decide (d ≤ n)%nat) as [|Hgt]; [done|].
    destruct (Hrej n) as [_ Hne]; [lia|]. lia. }
  rewrite Hcalls. replace (S (0 + d) - 1)%nat with d by lia.
  split; [lia|]. split; [done|]. split.
  - intros j Hj. by destruct (Hrej j Hj).
  - intros e He. specialize (Hbud e He). lia.
Qed.

Lemma retryEvery_settles_witness :
  ∃ (r : res nat) (st : retry_state),
    retryEvery (λ k, if (k <? 2)%nat then Rejected TypeError else Resolved k)
      (num_of_Z 1000) (num_of_Z 3) (Z.of_nat 3) 4 = Some (r, st)
    ∧ (1 ≤ calls st ≤ 4)%nat.
Proof.
  destruct (retryEvery_settles
              (λ k, if (k <? 2)%nat then @Rejected nat TypeError else Resolved k)
              (num_of_Z 1000) (num_of_Z 3) 3 4) as (r & st & Hrun & Hcalls & _); [lia|].
  by exists r, st.
Defined.

(** X2.  When the callback first succeeds at its invocation number [k + 1],
    within the budget, [retryEvery] resolves with that value after exactly
    [k + 1] invocations and [k] delays, and invokes the callback no more. *)
Theorem retryEvery_first_success {A : Type} (callback : nat → res A)
    (initialRetryTimer increaseFactor : jsnum) (n k fuel : nat) (a : A) :
  (∀ j : nat, (j < k)%nat → ∃ e, callback j = Rejected e) →
  callback k = Resolved a →
  (k ≤ n)%nat →
  (k < fuel)%nat →
  retryEvery callback initialRetryTimer increaseFactor (Z.of_nat n) fuel
  = Some (Resolved a,
          {| calls := S k; retryNum := Z.of_nat k;
             sleeps := backoff increaseFactor initialRetryTimer k |}).
Proof.
  intros Hfail Hok Hk Hfuel. unfold retryEvery.
  assert (Hgen : ∀ (d fuel : nat) (timer : jsnum) (st : retry_state),
    (calls st + d = k)%nat → retryNum st + Z.of_nat d <= Z.of_nat n →
    0 <= retryNum st → (d < fuel)%nat →
    attempt callback increaseFactor (Z.of_nat n) fuel timer st
    = Some (Resolved a,
            {| calls := S k; retryNum := retryNum st + Z.of_nat d;
               sleeps := sleeps st ++ backoff increaseFactor timer d |})).
  { induction d as [|d IH]; intros fuel0 timer st Hc Hn Hpos Hf.
    - destruct fuel0 as [|fuel0]; [lia|]. cbn [attempt backoff].
      rewrite Nat.add_0_r in Hc. rewrite Hc, Hok, Z.add_0_r, app_nil_r. done.
    - destruct fuel0 as [|fuel0]; [lia|]. cbn [attempt backoff].
      destruct (Hfail (calls st)) as [e He]; [lia|]. rewrite He.
      replace (retryNum st =? Z.of_nat n) with false by (symmetry; apply Z.eqb_neq; lia).
      rewrite IH; cbn [calls retryNum sleeps]; try lia.
      do 3 f_equal; [lia|]. by rewrite <- app_assoc. }
  rewrite (Hgen k fuel); cbn [calls retryNum sleeps]; try lia. done.
Qed.

Lemma retryEvery_first_success_witness :
  retryEvery (λ k, if (k <? 2)%nat then Rejected TypeError else Resolved k)
    (num_of_Z 1000) (num_of_Z 3) (Z.of_nat 3) 4
  = Some (Resolved 2%nat,
          {| calls := 3; retryNum := Z.of_nat 2;
             sleeps := backoff (num_of_Z 3) (num_of_Z 1000) 2 |}).
Proof.
  apply (retryEvery_first_success
           (λ k, if (k <? 2)%nat then @Rejected nat TypeError else Resolved k)
           (num_of_Z 1000) (num_of_Z 3) 3 2 4 2%nat).
  - intros j Hj. exists TypeError. destruct j as [|[|j]]; [done|done|lia].
  - done.
  - lia.
  - lia.
Defined.

(** X3.  In every settled run the callback was invoked once more than
    there were delays, the counter [retryNum] is the number of delays, and the
    delays grow geometrically: delay number [i + 1] is [initialRetryTimer]
    multiplied [i + 1] times by [increaseFactor], so the first one is
    already [initialRetryTimer * increaseFactor]. *)
Theorem retryEvery_backoff {A : Type} (callback : nat → res A)
    (initialRetryTimer increaseFactor : jsnum) (maxRetries : Z) (fuel : nat)
    (r : res A) (st : retry_state) :
  retryEvery callback initialRetryTimer increaseFactor maxRetries fuel = Some (r, st) →
  calls st = S (length (sleeps st))
  ∧ retryNum st = Z.of_nat (length (sleeps st))
  ∧ ∀ (i : nat) (x : jsnum), sleeps st !! i = Some x →
      x = Nat.iter (S i) (λ t, num_mul t increaseFactor) initialRetryTimer.
Proof.
  unfold retryEvery. intros H.
  apply attempt_settled in H as (d & Hcalls & Hnum & Hsl & _).
  cbn [calls retryNum sleeps app] in *.
  rewrite Hsl, backoff_length. split; [done|]. split; [lia|].
  intros i x Hi. by apply backoff_lookup in Hi.
Qed.

Lemma retryEvery_backoff_witness :
  ∃ st : retry_state,
    retryEvery (λ k, @Rejected nat (Failure (VNum (num_of_Z (Z.of_nat k)))))
      (num_of_Z 1000) (num_of_Z 2) 3 5
    = Some (Rejected (Failure (VNum (num_of_Z 3))), st)
    ∧ calls st = S (length (sleeps st))
    ∧ sleeps st = [num_of_Z 2000; num_of_Z 4000; num_of_Z 8000].
Proof.
  eexists. split; [by vm_compute|]. split; [|by vm_compute].
  apply (retryEvery_backoff
           (λ k, @Rejected nat (Failure (VNum (num_of_Z (Z.of_nat k)))))
           (num_of_Z 1000) (num_of_Z 2) 3 5
           (Rejected (Failure (VNum (num_of_Z 3))))).
  by vm_compute.
Defined.

(** X4.  With a negative [maxRetries] the test [retryNum === maxRetries]
    never holds: a callback that always fails is retried without end, no
    number of invocations settles the promise. *)
Theorem retryEvery_negative_budget {A : Type} (callback : nat → res A)
    (initialRetryTimer increaseFactor : jsnum) (maxRetries : Z) (errs : nat → err)
    (fuel : nat) :
  (∀ k, callback k = Rejected (errs k)) →
  maxRetries < 0 →
  retryEvery callback initialRetryTimer increaseFactor maxRetries fuel = None.
Proof.
  intros Hfail Hneg. unfold retryEvery.
  by apply (attempt_negative_budget callback increaseFactor maxRetries errs Hfail Hneg).
Qed.

Lemma retryEvery_negative_budget_witness :
  retryEvery (λ k, @Rejected nat TypeError) (num_of_Z 1000) (num_of_Z 3) (-1) 50 = None.
Proof.
  apply (retryEvery_negative_budget (λ k, @Rejected nat TypeError)
           (num_of_Z 1000) (num_of_Z 3) (-1) (λ _, TypeError) 50); [done|lia].
Defined.

(** X5.  The start of the script, which passes no options: whatever the
    callback does, it is invoked at most 4 times, four invocations are
    enough to settle, and the delays are the first ones of 3000, 9000 and
    27000. *)
Theorem retryEvery_default_bounded {A : Type} (callback : nat → res A) (fuel : nat) :
  (4 ≤ fuel)%nat →
  ∃ (r : res A) (st : retry_state),
    retryEvery_default callback fuel = Some (r, st)
    ∧ (1 ≤ calls st ≤ 4)%nat
    ∧ sleeps st = take (calls st - 1) [num_of_Z 3000; num_of_Z 9000; num_of_Z 27000]
    ∧ (∀ e, r = Rejected e → calls st = 4%nat).
Proof.
  intros Hfuel. unfold retryEvery_default, retryEvery.
  destruct (attempt_settles callback (num_of_Z 3) 3 fuel (num_of_Z 1000)
              {| calls := 0; retryNum := 0; sleeps := [] |}) as (r & st & Hrun);
    [cbn; lia | cbn; lia |].
  exists r, st. split; [done|].
  apply attempt_settled in Hrun as (d & Hc & _ & Hsl & Hrej & _ & Hbud).
  cbn [calls retryNum sleeps app] in *.
  assert (Hd : (d ≤ 3)%nat).
  { destruct (decide (d ≤ 3)%nat) as [|Hn]; [done|].
    destruct (Hrej 3%nat) as [_ H3]; [lia|]. by destruct H3. }
  split; [lia|]. split.
  - rewrite Hsl, Hc. replace (S (0 + d) - 1)%nat with d by lia.
    destruct d as [|[|[|[|d]]]]; [by vm_compute..|lia].
  - intros e He. specialize (Hbud e He). lia.
Qed.

Lemma retryEvery_default_bounded_witness :
  ∃ (r : res nat) (st : retry_state),
    retryEvery_default (λ k, @Rejected nat TypeError) 6 = Some (r, st)
    ∧ (1 ≤ calls st ≤ 4)%nat.
Proof.
  destruct (retryEvery_default_bounded (λ k, @Rejected nat TypeError) 6)
    as (r & st & Hrun & Hcalls & _); [lia|].
  by exists r, st.
Defined.

(** ** The reducer: the cases the store is read and written in *)

Lemma own_props_app (h k : heap) (v : val) :
  (∀ l, v = VRef l → is_Some (h !! l)) → own_props (h ++ k) v = own_props h v.
Proof.
  intros Hv. destruct v as [| | | | | |l]; try done.
  destruct (Hv l eq_refl) as [c Hc]. unfold own_props.
  by rewrite (lookup_old _ _ _ _ Hc), Hc.
Qed.

Lemma get_field_alloc (h : heap) (m : gmap string val) (k : string) :
  get_field (VRef (length h)) k (h ++ [CObj m])
  = (Resolved (default VUndef (m !! k)), h ++ [CObj m]).
Proof. unfold get_field. by rewrite lookup_alloc. Qed.

Lemma get_field_obj (h : heap) (l : loc) (m : gmap string val) (k : string) :
  h !! l = Some (CObj m) →
  get_field (VRef l) k h = (Resolved (default VUndef (m !! k)), h).
Proof. unfold get_field. by intros ->. Qed.

Lemma lookup_app_objects (h k : heap) (a : loc) (xs : list val) :
  Forall (λ c, ∃ m, c = CObj m) k →
  (h ++ k) !! a = Some (CArr xs) → h !! a = Some (CArr xs).
Proof.
  intros Hk Ha. apply lookup_app_Some in Ha as [Ha|[_ Ha]]; [done|].
  apply (Forall_lookup_1 _ _ _ _ Hk) in Ha as [m Hm]. discriminate.
Qed.

(** A value that is no array of the store has no [push] to call. *)
Lemma call_push_no_array (h k : heap) (state : val) (key : string) (x : val) :
  array_of h state key = None →
  Forall (λ c, ∃ m, c = CObj m) k →
  call_push (field_of h state key) x (h ++ k) = (Rejected TypeError, h ++ k).
Proof.
  unfold array_of, call_push. intros Hnone Hk.
  destruct (field_of h state key) as [| | | | | |a]; try done.
  destruct ((h ++ k) !! a) as [[m|xs]|] eqn:Ha; try done.
  apply lookup_app_objects in Ha; [|done]. by rewrite Ha in Hnone.
Qed.

Lemma call_map_no_array {f : val → M val} (h k : heap) (state : val) (key : string) :
  array_of h state key = None →
  Forall (λ c, ∃ m, c = CObj m) k →
  call_map (field_of h state key) f (h ++ k) = (Rejected TypeError, h ++ k).
Proof.
  unfold array_of, call_map. intros Hnone Hk.
  destruct (field_of h state key) as [| | | | | |a]; try done.
  destruct ((h ++ k) !! a) as [[m|xs]|] eqn:Ha; try done.
  apply lookup_app_objects in Ha; [|done]. by rewrite Ha in Hnone.
Qed.

Section ReducerMore.

Variable addressesEqual : val → val → bool.
Variable toUtf8 : val → res val.
Variables SYNC_STATUS_SYNCING SYNC_STATUS_SYNCED : val.
Variables stakeTokenAddress vaultAddress requestTokenAddress : val.

Local Abbreviation red :=
  (reducer addressesEqual toUtf8 SYNC_STATUS_SYNCING SYNC_STATUS_SYNCED
     stakeTokenAddress vaultAddress requestTokenAddress).
Local Abbreviation switch :=
  (generic_switch toUtf8 SYNC_STATUS_SYNCING SYNC_STATUS_SYNCED).
Local Abbreviation from_stake := (from_stake_token addressesEqual stakeTokenAddress).
Local Abbreviation vault_token :=
  (vault_token_event addressesEqual vaultAddress requestTokenAddress).
Local Abbreviation to_switch :=
  (reaches_switch addressesEqual stakeTokenAddress vaultAddress requestTokenAddress).

(** X6.  A [Transfer] of the stake token whose total supply is fetched:
    the reducer resolves to a new state object with the properties of the
    input state but [stakeToken], which is a new object with the properties
    of the old [stakeToken] (none if there was none) and [tokenSupply] set
    to the fetched value; nothing that was in the store is changed, whatever
    else the event carries. *)
Theorem reducer_Transfer a state e h supply :
  from_stake e = true →
  strict_eq (event e) (VStr (lit "Transfer")) = true →
  totalSupply a = Resolved supply →
  red a state e h =
    (Resolved (VRef (S (S (length h)))),
     h ++ [CObj (own_props h state);
           CObj (<["tokenSupply"%string := supply]>
                   (own_props (h ++ [CObj (own_props h state)])
                      (field_of h state "stakeToken")));
           CObj (<["stakeToken"%string := VRef (S (length h))]> (own_props h state))])
  ∧ (∀ (t : loc) (m : gmap string val),
       field_of h state "stakeToken" = VRef t → h !! t = Some (CObj m) →
       own_props (red a state e h).2 (VRef (S (length h)))
       = <["tokenSupply"%string := supply]> m)
  ∧ (own_props h state !! "stakeToken"%string = None →
       own_props (red a state e h).2 (VRef (S (length h)))
       = <["tokenSupply"%string := supply]> ∅)
  ∧ array_of (red a state e h).2 (VRef (S (S (length h)))) "proposals"
    = array_of h state "proposals".
Proof.
  intros Hs Hname Hsupply.
  assert (Hrun : red a state e h =
    (Resolved (VRef (S (S (length h)))),
     h ++ [CObj (own_props h state);
           CObj (<["tokenSupply"%string := supply]>
                   (own_props (h ++ [CObj (own_props h state)])
                      (field_of h state "stakeToken")));
           CObj (<["stakeToken"%string := VRef (S (length h))]> (own_props h state))])).
  { rewrite reducer_dispatch. unfold from_stake_token in Hs. unfold from_stake_token.
    rewrite Hs. unfold stake_token_switch. rewrite Hname, Hsupply.
    unfold bind at 1, await at 1. unfold bind at 1, spread at 1.
    rewrite own_props_alloc. unfold bind at 1. rewrite get_field_alloc.
    unfold bind, spread, alloc. heap_norm. reflexivity. }
  split; [done|]. rewrite Hrun. cbn [snd]. split; [|split].
  - intros t m Hf Ht. erewrite own_props_obj; [|apply lookup_at1].
    rewrite Hf. by rewrite (own_props_obj _ _ m) by (by apply lookup_old).
  - intros Hnone. erewrite own_props_obj; [|apply lookup_at1].
    unfold field_of. by rewrite Hnone.
  - unfold array_of.
    rewrite (field_of_obj _ _ (<["stakeToken"%string := VRef (S (length h))]> (own_props h state)))
      by apply lookup_at2.
    rewrite lookup_insert_ne by done. fold (field_of h state "proposals").
    destruct (field_of h state "proposals") as [| | | | | |b]; try done.
    destruct (h !! b) as [c|] eqn:Hb.
    + by rewrite (lookup_old _ _ _ _ Hb).
    + apply lookup_ge_None in Hb.
      destruct (decide (b < length h + 3)%nat) as [Hlt|Hge].
      * destruct (decide (b = length h)) as [->|]; [by rewrite lookup_at0|].
        destruct (decide (b = S (length h))) as [->|]; [by rewrite lookup_at1|].
        assert (b = S (S (length h))) as -> by lia. by rewrite lookup_at2.
      * rewrite lookup_ge_None_2; [done|]. rewrite length_app. simpl. lia.
Qed.

(** X7.  A sync-status marker that reaches the [switch] under no other
    case: the reducer resolves to a new state object with the properties of
    the input state and [isSyncing] set, to [true] for the syncing marker
    and to [false] for the synced one (the syncing marker is tested first);
    nothing that was in the store is changed. *)
Theorem reducer_sync_status a state e h :
  to_switch e = true →
  strict_eq (event e) (VStr (lit "ProposalAdded")) = false →
  strict_eq (event e) (VStr (lit "StakeChanged")) = false →
  strict_eq (event e) (VStr (lit "ProposalExecuted")) = false →
  (strict_eq (event e) SYNC_STATUS_SYNCING = true →
     red a state e h =
       (Resolved (VRef (S (length h))),
        h ++ [CObj (own_props h state);
              CObj (<["isSyncing"%string := VBool true]> (own_props h state))]))
  ∧ (strict_eq (event e) SYNC_STATUS_SYNCING = false →
     strict_eq (event e) SYNC_STATUS_SYNCED = true →
     red a state e h =
       (Resolved (VRef (S (length h))),
        h ++ [CObj (own_props h state);
              CObj (<["isSyncing"%string := VBool false]> (own_props h state))])).
Proof.
  intros Hsw H1 H2 H3. split.
  - intros Hs. rewrite reducer_to_switch by done. unfold generic_switch.
    rewrite H1, H2, H3, Hs. unfold bind, spread, alloc.
    rewrite own_props_alloc. heap_norm. reflexivity.
  - intros Hs Hd. rewrite reducer_to_switch by done. unfold generic_switch.
    rewrite H1, H2, H3, Hs, Hd. unfold bind, spread, alloc.
    rewrite own_props_alloc. heap_norm. reflexivity.
Qed.

(** X8.  A [StakeChanged] event that reaches the [switch], on a state
    whose [convictionStakes] is an array: the reducer resolves to the copy of
    the state and appends to that array exactly one new object, with
    [entity] the entity, [proposal], [tokensStaked], [totalTokensStaked] and
    [conviction] the parses of the event's parameters, and [time] the
    event's block number; whether a proposal with that id exists is not
    looked at, and no other location of the store is changed. *)
Theorem reducer_StakeChanged a state e h arr xs :
  strict_eq (event e) (VStr (lit "StakeChanged")) = true →
  to_switch e = true →
  own_props h state !! "convictionStakes"%string = Some (VRef arr) →
  h !! arr = Some (CArr xs) →
  ∃ (s' p : loc) (h' : heap),
    red a state e h = (Resolved (VRef s'), h')
    ∧ h !! s' = None ∧ h !! p = None
    ∧ own_props h' (VRef s') = own_props h state
    ∧ h' !! arr = Some (CArr (xs ++ [VRef p]))
    ∧ own_props h' (VRef p) = stake_literal e
    ∧ field_of h' (VRef p) "entity" = rv e "entity"
    ∧ field_of h' (VRef p) "proposal" = VNum (parseInt (returnValues e !! "id"%string))
    ∧ field_of h' (VRef p) "time" = blockNumber e
    ∧ (∀ (l : loc) (c : cell), l ≠ arr → h !! l = Some c → h' !! l = Some c).
Proof.
  intros Hname Hsw Hprops Harr.
  assert (Hlt : (arr < length h)%nat) by (by eapply lookup_lt_Some).
  exists (length h), (S (length h)),
    (<[arr := CArr (xs ++ [VRef (S (length h))])]>
       (h ++ [CObj (own_props h state); CObj (stake_literal e)])).
  split; [by apply (StakeChanged_run addressesEqual)|].
  split; [apply lookup_fresh|]. split; [apply lookup_ge_None_2; lia|].
  assert (Hp : (<[arr:=CArr (xs ++ [VRef (S (length h))])]>
                 (h ++ [CObj (own_props h state); CObj (stake_literal e)]))
               !! S (length h) = Some (CObj (stake_literal e))).
  { rewrite list_lookup_insert_ne by lia. apply lookup_at1. }
  split.
  { apply own_props_obj. rewrite list_lookup_insert_ne by lia. apply lookup_at0. }
  split; [rewrite list_lookup_insert_eq; [done|rewrite length_app; lia]|].
  split; [by apply own_props_obj|].
  rewrite !(field_of_obj _ _ _ _ Hp). unfold stake_literal.
  split; [by simplify_map_eq|]. split; [by simplify_map_eq|].
  split; [by simplify_map_eq|].
  intros l c Hne Hl. rewrite list_lookup_insert_ne by done. by apply lookup_old.
Qed.

(** X9.  The arrays are not created by the reducer.  On a state whose
    [proposals] is not an array of the store (the property is missing, or
    the state is [undefined]) a [ProposalAdded] or [ProposalExecuted] event
    that reaches the [switch] makes the reducer reject with a [TypeError],
    and so does a [StakeChanged] event on a state whose [convictionStakes]
    is not an array; what was in the store is left as it was. *)
Theorem reducer_missing_array a state e h :
  to_switch e = true →
  (∀ link : val,
     strict_eq (event e) (VStr (lit "ProposalAdded")) = true →
     decoded_link toUtf8 e = Resolved link →
     array_of h state "proposals" = None →
     red a state e h
     = (Rejected TypeError,
        h ++ [CObj (own_props h state); CObj (proposal_literal e link)]))
  ∧ (strict_eq (event e) (VStr (lit "StakeChanged")) = true →
     array_of h state "convictionStakes" = None →
     ∃ k : heap, red a state e h = (Rejected TypeError, h ++ k))
  ∧ (strict_eq (event e) (VStr (lit "ProposalExecuted")) = true →
     array_of h state "proposals" = None →
     ∃ k : heap, red a state e h = (Rejected TypeError, h ++ k)).
Proof.
  intros Hsw. split; [|split].
  - intros link Hname Hlink Hnone. rewrite reducer_to_switch by done.
    unfold generic_switch. rewrite Hname, Hlink.
    unfold bind at 1, await at 1. unfold bind at 1, alloc at 1.
    unfold bind at 1.
    rewrite (get_field_obj _ _ (own_props h state))
      by (rewrite <- app_assoc; apply lookup_at0).
    fold (field_of h state "proposals"). unfold bind at 1.
    rewrite <- app_assoc. cbn [app].
    rewrite call_push_no_array; [done|done|].
    repeat constructor; by eexists.
  - intros Hname Hnone. rewrite reducer_to_switch by done.
    unfold generic_switch. apply strict_eq_str in Hname. rewrite Hname.
    replace (strict_eq (VStr (lit "StakeChanged")) (VStr (lit "ProposalAdded")))
      with false by (by vm_compute).
    replace (strict_eq (VStr (lit "StakeChanged")) (VStr (lit "StakeChanged")))
      with true by (by vm_compute).
    unfold bind at 1. rewrite get_field_alloc.
    fold (field_of h state "convictionStakes").
    destruct (lookup_method (field_of h state "convictionStakes")
                (h ++ [CObj (own_props h state)])) as [[u|err] h1] eqn:Hm.
    + apply lookup_method_resolved in Hm as Hh1. subst h1.
      unfold bind at 1. rewrite Hm. unfold bind at 1, alloc at 1.
      unfold bind at 1. rewrite <- app_assoc. cbn [app].
      rewrite call_push_no_array; [by eexists|done|].
      repeat constructor; by eexists.
    + unfold bind at 1. rewrite Hm. unfold lookup_method in Hm.
      destruct (field_of h state "convictionStakes"); simplify_eq; by eexists.
  - intros Hname Hnone. rewrite reducer_to_switch by done.
    unfold generic_switch. apply strict_eq_str in Hname. rewrite Hname.
    replace (strict_eq (VStr (lit "ProposalExecuted")) (VStr (lit "ProposalAdded")))
      with false by (by vm_compute).
    replace (strict_eq (VStr (lit "ProposalExecuted")) (VStr (lit "StakeChanged")))
      with false by (by vm_compute).
    replace (strict_eq (VStr (lit "ProposalExecuted")) (VStr (lit "ProposalExecuted")))
      with true by (by vm_compute).
    unfold bind at 1, spread at 1. unfold bind at 1. rewrite get_field_alloc.
    fold (field_of h state "proposals").
    destruct (lookup_method (field_of h state "proposals")
                (h ++ [CObj (own_props h state)])) as [[u|err] h1] eqn:Hm.
    + apply lookup_method_resolved in Hm as Hh1. subst h1.
      unfold bind at 1. rewrite Hm. unfold bind at 1.
      rewrite call_map_no_array; [by eexists|done|].
      repeat constructor; by eexists.
    + unfold bind at 1. rewrite Hm. unfold lookup_method in Hm.
      destruct (field_of h state "proposals"); simplify_eq; by eexists.
Qed.

(** X10.  A failure of a collaborator fails the reduction with the
    collaborator's own reason and appends nothing: when the total supply
    cannot be fetched for a [Transfer] of the stake token, when
    [updateBalances] is rejected for a vault event about the request token,
    and when [toUtf8] throws on the link of a [ProposalAdded] event, the
    reducer rejects with that reason, and the store is the one it started
    from plus the unused copy of the state. *)
Theorem reducer_collaborator_failure a state e h err :
  (from_stake e = true →
   strict_eq (event e) (VStr (lit "Transfer")) = true →
   totalSupply a = Rejected err →
   red a state e h = (Rejected err, h ++ [CObj (own_props h state)]))
  ∧ (from_stake e = false →
     vault_token e = true →
     updateBalances a = Rejected err →
     red a state e h = (Rejected err, h ++ [CObj (own_props h state)]))
  ∧ (to_switch e = true →
     strict_eq (event e) (VStr (lit "ProposalAdded")) = true →
     decoded_link toUtf8 e = Rejected err →
     red a state e h = (Rejected err, h ++ [CObj (own_props h state)])).
Proof.
  split; [|split].
  - intros Hs Hname Hsup. rewrite reducer_dispatch.
    unfold from_stake_token in Hs. unfold from_stake_token. rewrite Hs.
    unfold stake_token_switch. rewrite Hname, Hsup. reflexivity.
  - intros Hs Hv Hb. rewrite reducer_dispatch. rewrite Hs, Hv.
    unfold bind at 1, spread at 1. unfold bind at 1.
    unfold getRequestTokenSettings. rewrite Hb. reflexivity.
  - intros Hsw Hname Hlink. rewrite reducer_to_switch by done.
    unfold generic_switch. rewrite Hname, Hlink. reflexivity.
Qed.

End ReducerMore.

(** ** What no reduction does to the store *)

Lemma grows_ret {A : Type} (a : A) : grows (ret a).
Proof. intros h r h' [= _ <-]. apply heap_le_refl. Qed.

Lemma grows_await {A : Type} (x : res A) : grows (await x).
Proof. intros h r h' [= _ <-]. apply heap_le_refl. Qed.

Lemma grows_alloc (c : cell) : grows (alloc c).
Proof. intros h r h' [= _ <-]. apply heap_le_app. Qed.

Lemma grows_spread (v : val) : grows (spread v).
Proof. intros h r h' [= _ <-]. apply heap_le_refl. Qed.

Lemma grows_get_field (v : val) (k : string) : grows (get_field v k).
Proof.
  intros h r h' H. pose proof (get_field_store v k h) as Hs.
  rewrite H in Hs. simpl in Hs. subst h'. apply heap_le_refl.
Qed.

Lemma grows_get_index0 (v : val) : grows (get_index0 v).
Proof.
  intros h r h' H. pose proof (get_index0_store v h) as Hs.
  rewrite H in Hs. simpl in Hs. subst h'. apply heap_le_refl.
Qed.

Lemma grows_lookup_method (v : val) : grows (lookup_method v).
Proof.
  intros h r h'. unfold lookup_method.
  destruct v; intros [= _ <-]; apply heap_le_refl.
Qed.

Lemma grows_call_push (target x : val) : grows (call_push target x).
Proof.
  intros h r h'. unfold call_push.
  destruct target as [| | | | | |a]; try (intros [= _ <-]; apply heap_le_refl).
  destruct (h !! a) as [[m|xs]|] eqn:Ha; intros [= _ <-];
    try apply heap_le_refl. by apply heap_le_push.
Qed.

Lemma grows_bind {A B : Type} (m : M A) (k : A → M B) :
  grows m → (∀ a, grows (k a)) → grows (bind m k).
Proof.
  intros Hm Hk h r h'. unfold bind.
  destruct (m h) as [[a|e] h1] eqn:Hrun.
  - intros H. eapply heap_le_trans; [by eapply Hm|by eapply Hk].
  - intros [= _ <-]. by eapply Hm.
Qed.

Lemma grows_mapM {A B : Type} (f : A → M B) (xs : list A) :
  (∀ x, grows (f x)) → grows (mapM f xs).
Proof.
  intros Hf. induction xs as [|x xs IH]; cbn [mapM]; [apply grows_ret|].
  apply grows_bind; [done|]. intros y.
  apply grows_bind; [done|]. intros ys. apply grows_ret.
Qed.

Lemma grows_call_map (target : val) (f : val → M val) :
  (∀ x, grows (f x)) → grows (call_map target f).
Proof.
  intros Hf h r h'. unfold call_map.
  destruct target as [| | | | | |a]; try (intros [= _ <-]; apply heap_le_refl).
  destruct (h !! a) as [[m|xs]|] eqn:Ha; try (intros [= _ <-]; apply heap_le_refl).
  apply grows_bind; [by apply grows_mapM|]. intros ys. apply grows_alloc.
Qed.

Lemma grows_flag_executed (e : chain_event) (proposal : val) :
  grows (flag_executed e proposal).
Proof.
  unfold flag_executed. apply grows_bind; [apply grows_get_field|]. intros pid.
  destruct (strict_eq pid _); [|apply grows_ret].
  apply grows_bind; [apply grows_spread|]. intros props. apply grows_alloc.
Qed.

Lemma grows_getRequestTokenSettings (address : val) (r : res val) :
  grows (getRequestTokenSettings address r).
Proof.
  unfold getRequestTokenSettings.
  apply grows_bind; [apply grows_await|]. intros balances.
  apply grows_bind; [apply grows_get_index0|]. intros first.
  apply grows_bind; [apply grows_spread|]. intros props.
  apply grows_bind; [apply grows_alloc|]. intros settings.
  destruct (to_boolean settings); [apply grows_ret|apply grows_alloc].
Qed.

Lemma SFeqb_refl (x : jsnum) : x ≠ S754_nan → SFeqb x x = true.
Proof.
  intros Hx. unfold SFeqb, SFcompare. destruct x as [s|s| |s m e]; try done.
  - by destruct s.
  - destruct s; by rewrite Z.compare_refl, Pos.compare_cont_refl.
Qed.

Section ReducerStore.

Variable addressesEqual : val → val → bool.
Variable toUtf8 : val → res val.
Variables SYNC_STATUS_SYNCING SYNC_STATUS_SYNCED : val.
Variables stakeTokenAddress vaultAddress requestTokenAddress : val.

Local Abbreviation red :=
  (reducer addressesEqual toUtf8 SYNC_STATUS_SYNCING SYNC_STATUS_SYNCED
     stakeTokenAddress vaultAddress requestTokenAddress).
Local Abbreviation switch :=
  (generic_switch toUtf8 SYNC_STATUS_SYNCING SYNC_STATUS_SYNCED).
Local Abbreviation fold :=
  (reduce_all addressesEqual toUtf8 SYNC_STATUS_SYNCING SYNC_STATUS_SYNCED
     stakeTokenAddress vaultAddress requestTokenAddress).
Local Abbreviation to_switch :=
  (reaches_switch addressesEqual stakeTokenAddress vaultAddress requestTokenAddress).

Lemma grows_generic_switch (nextState : val) (e : chain_event) :
  grows (switch nextState e).
Proof.
  unfold generic_switch.
  destruct (strict_eq (event e) (VStr (lit "ProposalAdded"))).
  { apply grows_bind; [apply grows_await|]. intros link.
    apply grows_bind; [apply grows_alloc|]. intros p.
    apply grows_bind; [apply grows_get_field|]. intros target.
    apply grows_bind; [apply grows_call_push|]. intros u. apply grows_ret. }
  destruct (strict_eq (event e) (VStr (lit "StakeChanged"))).
  { apply grows_bind; [apply grows_get_field|]. intros target.
    apply grows_bind; [apply grows_lookup_method|]. intros u0.
    apply grows_bind; [apply grows_alloc|]. intros p.
    apply grows_bind; [apply grows_call_push|]. intros u. apply grows_ret. }
  destruct (strict_eq (event e) (VStr (lit "ProposalExecuted"))).
  { apply grows_bind; [apply grows_spread|]. intros props.
    apply grows_bind; [apply grows_get_field|]. intros target.
    apply grows_bind; [apply grows_lookup_method|]. intros u0.
    apply grows_bind; [apply grows_call_map, grows_flag_executed|]. intros mapped.
    apply grows_alloc. }
  destruct (strict_eq (event e) SYNC_STATUS_SYNCING).
  { apply grows_bind; [apply grows_spread|]. intros props. apply grows_alloc. }
  destruct (strict_eq (event e) SYNC_STATUS_SYNCED).
  { apply grows_bind; [apply grows_spread|]. intros props. apply grows_alloc. }
  apply grows_ret.
Qed.

Lemma grows_reducer (a : answers) (state : val) (e : chain_event) :
  grows (red a state e).
Proof.
  unfold reducer.
  apply grows_bind; [apply grows_spread|]. intros props.
  apply grows_bind; [apply grows_alloc|]. intros nextState.
  destruct (addressesEqual (address e) stakeTokenAddress).
  { unfold stake_token_switch.
    destruct (strict_eq (event e) (VStr (lit "Transfer"))); [|apply grows_ret].
    apply grows_bind; [apply grows_await|]. intros supply.
    apply grows_bind; [apply grows_spread|]. intros props0.
    apply grows_bind; [apply grows_get_field|]. intros st.
    apply grows_bind; [apply grows_spread|]. intros tokenProps.
    apply grows_bind; [apply grows_alloc|]. intros st'. apply grows_alloc. }
  destruct (addressesEqual (address e) vaultAddress
            && strict_eq (rv e "token") requestTokenAddress).
  { apply grows_bind; [apply grows_spread|]. intros props0.
    apply grows_bind; [apply grows_getRequestTokenSettings|]. intros r.
    apply grows_alloc. }
  apply grows_generic_switch.
Qed.

(** X11.  Whatever the events and whatever the outcome, rejected folds
    included, the reducer removes nothing and rewrites nothing: every
    object that was in the store keeps its properties, every array keeps its
    elements at their indices and may only have more after them, and no
    location disappears. *)
Theorem reduce_all_store_grows (es : list (answers * chain_event)) (state : val)
    (h : heap) (r : res val) (h' : heap) :
  fold state es h = (r, h') →
  heap_le h h'
  ∧ (length h ≤ length h')%nat
  ∧ (∀ (l : loc) (xs : list val) (i : nat) (x : val),
       h !! l = Some (CArr xs) → xs !! i = Some x →
       ∃ xs' : list val, h' !! l = Some (CArr xs') ∧ xs' !! i = Some x).
Proof.
  intros H.
  assert (Hle : heap_le h h').
  { revert state h r h' H. induction es as [|[a e] es IH]; intros state h r h'.
    - apply grows_ret.
    - cbn [reduce_all]. apply grows_bind; [apply grows_reducer|].
      intros s1 h1 r1 h1'. apply IH. }
  split; [done|]. split.
  - destruct (decide (length h ≤ length h')%nat) as [|Hn]; [done|].
    destruct (lookup_lt_is_Some_2 h (length h')) as [c Hc]; [lia|].
    destruct c as [m|zs].
    + apply Hle in Hc. apply lookup_lt_Some in Hc. lia.
    + apply Hle in Hc as (? & Hc). apply lookup_lt_Some in Hc. lia.
  - intros l xs i x Hl Hi. destruct (proj2 (Hle l) xs Hl) as (ys & Hl').
    exists (xs ++ ys). split; [done|]. by apply lookup_app_l_Some.
Qed.

Lemma mapM_flag_no_match (e : chain_event) (h : heap) (xs : list val) :
  Forall (is_object h) xs →
  Forall (λ v, has_id h (parseInt (returnValues e !! "id"%string)) v = false) xs →
  mapM (flag_executed e) xs h = (Resolved xs, h).
Proof.
  induction xs as [|x xs IH]; intros Hobj Hno; [done|].
  apply Forall_cons in Hobj as [Hx Hobj]. apply Forall_cons in Hno as [Hnx Hno].
  cbn [mapM]. unfold bind at 1.
  pose proof (flag_executed_run e h [] x Hx) as Hrun.
  rewrite !app_nil_r in Hrun. rewrite Hrun, Hnx.
  unfold bind at 1. rewrite IH by done. done.
Qed.

(** X12.  A [ProposalExecuted] event whose id is the id of no proposal, in
    particular one whose id does not parse ([NaN] equals no id, not even a
    [NaN] one), is not an error: the reducer resolves to a new state whose
    [proposals] is a new array of the very same elements, and nothing else
    is allocated or changed. *)
Theorem reducer_ProposalExecuted_unknown_id a state e h arr xs :
  strict_eq (event e) (VStr (lit "ProposalExecuted")) = true →
  to_switch e = true →
  own_props h state !! "proposals"%string = Some (VRef arr) →
  h !! arr = Some (CArr xs) →
  Forall (is_object h) xs →
  parseInt (returnValues e !! "id"%string) = S754_nan
  ∨ Forall (λ v, has_id h (parseInt (returnValues e !! "id"%string)) v = false) xs →
  red a state e h =
    (Resolved (VRef (S (S (length h)))),
     h ++ [CObj (own_props h state); CArr xs;
           CObj (<["proposals"%string := VRef (S (length h))]> (own_props h state))]).
Proof.
  intros Hname Hsw Hprops Harr Hobj Hno.
  assert (Hno' : Forall (λ v, has_id h (parseInt (returnValues e !! "id"%string)) v = false) xs).
  { destruct Hno as [Hnan|Hno]; [|done].
    rewrite Hnan. apply Forall_forall. intros v _. apply has_id_nan. }
  rewrite (reducer_to_switch addressesEqual) by done.
  unfold generic_switch. apply strict_eq_str in Hname. rewrite Hname.
  replace (strict_eq (VStr (lit "ProposalExecuted")) (VStr (lit "ProposalAdded")))
    with false by (by vm_compute).
  replace (strict_eq (VStr (lit "ProposalExecuted")) (VStr (lit "StakeChanged")))
    with false by (by vm_compute).
  replace (strict_eq (VStr (lit "ProposalExecuted")) (VStr (lit "ProposalExecuted")))
    with true by (by vm_compute).
  unfold bind at 1, spread at 1. rewrite own_props_alloc.
  unfold bind at 1. rewrite get_field_alloc, Hprops. cbn [from_option id].
  unfold bind at 1, lookup_method at 1. unfold bind at 1.
  unfold call_map. rewrite (lookup_old _ _ _ _ Harr).
  unfold bind at 1.
  rewrite (mapM_flag_no_match e (h ++ [CObj (own_props h state)]) xs).
  - unfold alloc. heap_norm. reflexivity.
  - eapply Forall_impl; [exact Hobj|]. intros v (l & m & -> & Hl).
    exists l, m. split; [done|]. by apply lookup_old.
  - apply Forall_forall. intros v Hv.
    pose proof (proj1 (Forall_forall _ _) Hno' v Hv) as Hid.
    pose proof (proj1 (Forall_forall _ _) Hobj v Hv) as (l & m & -> & Hl).
    unfold has_id, field_of in *.
    by rewrite (own_props_obj _ _ m) by (by apply lookup_old);
      rewrite (own_props_obj _ _ m) in Hid by done.
Qed.

(** X13.  Adding and then executing.  After a [ProposalAdded] event and a
    [ProposalExecuted] event with the same id text, both reaching the
    [switch], on a state whose [proposals] is an array of objects: if that
    id parses to a number, the last proposal of the resulting state is the
    added one with [executed] set to [true], and there is one proposal more
    than before.  (An id that parses to [NaN] is never matched.) *)
Theorem proposal_added_then_executed a1 a2 e1 e2 state h arr xs link :
  strict_eq (event e1) (VStr (lit "ProposalAdded")) = true →
  to_switch e1 = true →
  strict_eq (event e2) (VStr (lit "ProposalExecuted")) = true →
  to_switch e2 = true →
  returnValues e2 !! "id"%string = returnValues e1 !! "id"%string →
  parseInt (returnValues e1 !! "id"%string) ≠ S754_nan →
  own_props h state !! "proposals"%string = Some (VRef arr) →
  h !! arr = Some (CArr xs) →
  Forall (is_object h) xs →
  decoded_link toUtf8 e1 = Resolved link →
  ∃ (s' : val) (h' : heap) (ys : list val) (p' : loc),
    fold state [(a1, e1); (a2, e2)] h = (Resolved s', h')
    ∧ array_of h' s' "proposals" = Some ys
    ∧ length ys = S (length xs)
    ∧ ys !! length xs = Some (VRef p')
    ∧ own_props h' (VRef p')
      = <["executed"%string := VBool true]> (proposal_literal e1 link)
    ∧ field_of h' (VRef p') "executed" = VBool true.
Proof.
  intros Hn1 Hs1 Hn2 Hs2 Hid Hnan Hprops Harr Hobj Hlink.
  assert (Hlt : (arr < length h)%nat) by (by eapply lookup_lt_Some).
  cbn [reduce_all]. unfold bind at 1.
  rewrite (ProposalAdded_run addressesEqual toUtf8 SYNC_STATUS_SYNCING SYNC_STATUS_SYNCED
             stakeTokenAddress vaultAddress requestTokenAddress
             a1 state e1 h arr xs link Hn1 Hs1 Hprops Harr Hlink).
  set (h1 := <[arr:=CArr (xs ++ [VRef (S (length h))])]>
               (h ++ [CObj (own_props h state); CObj (proposal_literal e1 link)])).
  assert (Hcopy : h1 !! length h = Some (CObj (own_props h state))).
  { unfold h1. rewrite list_lookup_insert_ne by lia. apply lookup_at0. }
  assert (Hp : h1 !! S (length h) = Some (CObj (proposal_literal e1 link))).
  { unfold h1. rewrite list_lookup_insert_ne by lia. apply lookup_at1. }
  assert (Harr1 : h1 !! arr = Some (CArr (xs ++ [VRef (S (length h))]))).
  { unfold h1. rewrite list_lookup_insert_eq; [done|]. rewrite length_app. lia. }
  assert (Hobj1 : Forall (is_object h1) (xs ++ [VRef (S (length h))])).
  { apply Forall_app. split.
    - eapply Forall_impl; [exact Hobj|]. intros v (l & m & -> & Hl).
      exists l, m. split; [done|]. unfold h1.
      rewrite list_lookup_insert_ne by congruence. by apply lookup_old.
    - repeat constructor. by eexists _, _. }
  destruct (ProposalExecuted_run addressesEqual toUtf8 SYNC_STATUS_SYNCING
              SYNC_STATUS_SYNCED stakeTokenAddress vaultAddress requestTokenAddress
              a2 (VRef (length h)) e2 h1 arr (xs ++ [VRef (S (length h))]))
    as (ys & k & Hrun & Hlen & Hys); try done.
  { by rewrite (own_props_obj _ _ _ Hcopy). }
  unfold bind at 1. rewrite Hrun. unfold ret.
  specialize (Hys (length xs) (VRef (S (length h)))).
  rewrite Hid in Hys.
  assert (Hhas : has_id h1 (parseInt (returnValues e1 !! "id"%string))
                   (VRef (S (length h))) = true).
  { unfold has_id. rewrite (field_of_obj _ _ _ _ Hp). unfold proposal_literal.
    rewrite lookup_insert_eq. cbn [from_option id strict_eq]. by apply SFeqb_refl. }
  rewrite Hhas in Hys.
  destruct Hys as (p' & Hy & _ & Hp'); [by rewrite list_lookup_middle|].
  rewrite (own_props_obj _ _ _ Hp) in Hp'.
  set (hk := h1 ++ CObj (own_props h1 (VRef (length h))) :: k) in *.
  assert (Hp'' : (hk ++ [CArr ys;
      CObj (<["proposals"%string := VRef (length hk)]> (own_props h1 (VRef (length h))))])
      !! p' = Some (CObj (<["executed"%string := VBool true]> (proposal_literal e1 link))))
    by (by apply lookup_old).
  eexists _, _, ys, p'. split; [done|]. split.
  { apply array_of_lookup with (length hk).
    - erewrite field_of_obj; [|apply lookup_at1]. by simplify_map_eq.
    - apply lookup_at0. }
  split; [rewrite Hlen, length_app; simpl; lia|]. split; [done|].
  split; [by apply own_props_obj|].
  rewrite (field_of_obj _ _ _ _ Hp''). by simplify_map_eq.
Qed.

End ReducerStore.

(** ** The reducer's further properties at concrete inputs *)

Lemma reducer_Transfer_witness :
  (Ex.reduce Ex.supply_answer Ex.seed Ex.transfer Ex.seed_heap).1 = Resolved (VRef 5%nat)
  ∧ own_props (Ex.reduce Ex.supply_answer Ex.seed Ex.transfer Ex.seed_heap).2 (VRef 4%nat)
    = <["tokenSupply"%string := VStr (lit "1000")]> ∅.
Proof.
  split; [by vm_compute|].
  apply (reducer_Transfer strict_eq (λ v, Resolved v) Ex.syncing Ex.synced
           Ex.stake Ex.vault Ex.token Ex.supply_answer Ex.seed Ex.transfer Ex.seed_heap
           (VStr (lit "1000"))); by vm_compute.
Defined.

Lemma reducer_sync_status_witness :
  Ex.reduce Ex.no_answer Ex.seed Ex.sync_started Ex.seed_heap
  = (Resolved (VRef 4%nat),
     Ex.seed_heap ++
       [CObj (own_props Ex.seed_heap Ex.seed);
        CObj (<["isSyncing"%string := VBool true]> (own_props Ex.seed_heap Ex.seed))]).
Proof.
  apply (reducer_sync_status strict_eq (λ v, Resolved v) Ex.syncing Ex.synced
           Ex.stake Ex.vault Ex.token Ex.no_answer Ex.seed Ex.sync_started Ex.seed_heap);
    by vm_compute.
Defined.

Lemma reducer_StakeChanged_witness :
  ∃ (s' p : loc) (h' : heap),
    Ex.reduce Ex.no_answer Ex.seed Ex.stake_changed Ex.seed_heap = (Resolved (VRef s'), h')
    ∧ h' !! 1%nat = Some (CArr ([] ++ [VRef p]))
    ∧ field_of h' (VRef p) "time" = blockNumber Ex.stake_changed.
Proof.
  destruct (reducer_StakeChanged strict_eq (λ v, Resolved v) Ex.syncing Ex.synced
              Ex.stake Ex.vault Ex.token Ex.no_answer Ex.seed Ex.stake_changed
              Ex.seed_heap 1%nat [])
    as (s' & p & h' & Hrun & _ & _ & _ & Harr & _ & _ & _ & Htime & _);
    [by vm_compute..|].
  by exists s', p, h'.
Defined.

Lemma reducer_missing_array_witness :
  reaches_switch strict_eq Ex.stake Ex.vault Ex.token Ex.proposal_added = true
  ∧ Ex.reduce Ex.no_answer VUndef Ex.proposal_added Ex.seed_heap
    = (Rejected TypeError,
       Ex.seed_heap ++
         [CObj (own_props Ex.seed_heap VUndef);
          CObj (proposal_literal Ex.proposal_added (VStr []))]).
Proof.
  split; [by vm_compute|].
  apply (reducer_missing_array strict_eq (λ v, Resolved v) Ex.syncing Ex.synced
           Ex.stake Ex.vault Ex.token Ex.no_answer VUndef Ex.proposal_added Ex.seed_heap);
    by vm_compute.
Defined.

Lemma reducer_collaborator_failure_witness :
  Ex.reduce Ex.no_answer Ex.seed Ex.transfer Ex.seed_heap
  = (Rejected TypeError, Ex.seed_heap ++ [CObj (own_props Ex.seed_heap Ex.seed)]).
Proof.
  apply (proj1 (reducer_collaborator_failure strict_eq (λ v, Resolved v) Ex.syncing
           Ex.synced Ex.stake Ex.vault Ex.token Ex.no_answer Ex.seed Ex.transfer
           Ex.seed_heap TypeError)); by vm_compute.
Defined.

Lemma reduce_all_store_grows_witness :
  (Ex.reduce_events Ex.seed
     [(Ex.no_answer, Ex.proposal_added); (Ex.no_answer, Ex.transfer)] Ex.seed_heap).1
  = Rejected TypeError
  ∧ heap_le Ex.seed_heap
      (Ex.reduce_events Ex.seed
         [(Ex.no_answer, Ex.proposal_added); (Ex.no_answer, Ex.transfer)] Ex.seed_heap).2.
Proof.
  split; [by vm_compute|].
  apply (reduce_all_store_grows strict_eq (λ v, Resolved v) Ex.syncing Ex.synced
           Ex.stake Ex.vault Ex.token
           [(Ex.no_answer, Ex.proposal_added); (Ex.no_answer, Ex.transfer)]
           Ex.seed Ex.seed_heap (Rejected TypeError)).
  by vm_compute.
Defined.

Lemma reducer_ProposalExecuted_unknown_id_witness :
  Ex.reduce Ex.no_answer Ex.two_proposals Ex.proposal_unparsed_executed Ex.two_proposals_heap
  = (Resolved (VRef 7%nat),
     Ex.two_proposals_heap ++
       [CObj (own_props Ex.two_proposals_heap Ex.two_proposals);
        CArr [VRef 0%nat; VRef 1%nat];
        CObj (<["proposals"%string := VRef 6%nat]>
                (own_props Ex.two_proposals_heap Ex.two_proposals))]).
Proof.
  apply (reducer_ProposalExecuted_unknown_id strict_eq (λ v, Resolved v) Ex.syncing
           Ex.synced Ex.stake Ex.vault Ex.token Ex.no_answer Ex.two_proposals
           Ex.proposal_unparsed_executed Ex.two_proposals_heap 2%nat
           [VRef 0%nat; VRef 1%nat]);
    [by vm_compute | by vm_compute | by vm_compute | by vm_compute | |].
  - repeat constructor; eexists _, _; (split; [reflexivity | by vm_compute]).
  - left. by vm_compute.
Defined.

Lemma proposal_added_then_executed_witness :
  ∃ (s' : val) (h' : heap) (ys : list val) (p' : loc),
    Ex.reduce_events Ex.seed
      [(Ex.no_answer, Ex.proposal_added); (Ex.no_answer, Ex.proposal_executed)]
      Ex.seed_heap = (Resolved s', h')
    ∧ array_of h' s' "proposals" = Some ys
    ∧ ys !! 0%nat = Some (VRef p')
    ∧ field_of h' (VRef p') "executed" = VBool true.
Proof.
  destruct (proposal_added_then_executed strict_eq (λ v, Resolved v) Ex.syncing Ex.synced
              Ex.stake Ex.vault Ex.token Ex.no_answer Ex.no_answer
              Ex.proposal_added Ex.proposal_executed Ex.seed Ex.seed_heap 0%nat []
              (VStr []))
    as (s' & h' & ys & p' & Hrun & Harr & _ & Hlast & _ & Hexec);
    [by vm_compute | by vm_compute | by vm_compute | by vm_compute | by vm_compute
    | by vm_compute | by vm_compute | by vm_compute | constructor | by vm_compute |].
  by exists s', h', ys, p'.
Defined.

(** ** initState: what the cache gives and what is made anew *)

Section InitStateMore.

Variable hasLoadedTokenSettings : heap → val → bool.
Variable to_label : heap → val → res jsstring.
Variable requestTokenAddress : val.

Local Abbreviation init :=
  (initState hasLoadedTokenSettings to_label requestTokenAddress).

(** The state [initState] resolves to, property by property. *)
Lemma initState_resolved_shape a cachedState h s h' :
  init a cachedState h = (Resolved s, h') →
  (∀ l, cachedState = VRef l → is_Some (h !! l)) →
  ∃ (l r p q : loc) (gp sts : val),
    s = VRef l ∧ h !! l = None ∧ h !! p = None ∧ h !! q = None ∧ p ≠ q
    ∧ h' !! p = Some (CArr []) ∧ h' !! q = Some (CArr [])
    ∧ to_boolean gp = true
    ∧ (∀ (c : loc) (m0 : gmap string val) (g : val),
         cachedState = VRef c → h !! c = Some (CObj m0) →
         m0 !! "globalParams"%string = Some g → to_boolean g = true →
         gp = g ∧ length h' = (length h + 4)%nat)
    ∧ h' !! l = Some (CObj
        (<["isSyncing"%string := VBool true]>
        (<["requestToken"%string := VRef r]>
        (<["stakeToken"%string := sts]>
        (<["globalParams"%string := gp]>
        (own_props h cachedState
         ∪ (<["proposals"%string := VRef p]>
           (<["convictionStakes"%string := VRef q]> ∅)))))))).
Proof.
  unfold initState. intros H Hwf.
  apply bind_resolved in H as (cachedParams & h1 & H1 & H).
  assert (h1 = h) as ->.
  { destruct (to_boolean cachedState).
    - by apply get_field_resolved in H1.
    - by injection H1 as _ <-. }
  assert (Hcp : ∀ (c : loc) (m0 : gmap string val) (g : val),
    cachedState = VRef c → h !! c = Some (CObj m0) →
    m0 !! "globalParams"%string = Some g → cachedParams = g).
  { intros c m0 g -> Hc Hg. cbn [to_boolean] in H1. unfold get_field in H1.
    rewrite Hc, Hg in H1. by injection H1 as <-. }
  clear H1.
  apply bind_resolved in H as (gp & h1 & H1 & H).
  assert (Hgp : to_boolean gp = true ∧ ∃ k, h1 = h ++ k
                ∧ (to_boolean cachedParams = true → gp = cachedParams ∧ k = [])).
  { destruct (to_boolean cachedParams) eqn:Hcb.
    - injection H1 as <- <-. split; [done|]. exists []. by rewrite app_nil_r.
    - unfold loadGlobalParams in H1.
      apply bind_resolved in H1 as (? & ? & [= _ <-] & H1).
      apply bind_resolved in H1 as (? & ? & [= _ <-] & H1).
      apply bind_resolved in H1 as (? & ? & [= _ <-] & H1).
      injection H1 as <- <-. split; [done|]. eexists. split; [done|]. discriminate. }
  destruct Hgp as (Hgpt & k1 & -> & Hk1). clear H1.
  apply bind_resolved in H as (loaded & h1 & Hload & H).
  injection Hload as _ <-.
  apply bind_resolved in H as (sts & h1 & H1 & H).
  assert (h1 = h ++ k1) as ->.
  { destruct loaded.
    - by apply get_field_resolved in H1.
    - by injection H1 as _ <-. }
  clear H1.
  apply bind_resolved in H as (requestTokenSettings & h1 & H1 & H).
  apply getRequestTokenSettings_resolved in H1 as (balances & first & _ & _ & -> & ->).
  apply bind_resolved in H as (label & h1 & H1 & H).
  apply identify_label_resolved in H1 as ->.
  apply bind_resolved in H as (pv & h1 & Hp & H). injection Hp as <- <-.
  apply bind_resolved in H as (qv & h1 & Hq & H). injection Hq as <- <-.
  apply bind_resolved in H as (cached & h1 & Hsp & H).
  apply spread_resolved in Hsp as [-> ->].
  remember (h ++ k1) as hs eqn:Hhs.
  assert (Hown : ∀ k, own_props (hs ++ k) cachedState = own_props h cachedState).
  { intros k. rewrite Hhs, <- app_assoc. by apply own_props_app. }
  assert (Hlen : (length h ≤ length hs)%nat) by (rewrite Hhs, length_app; lia).
  unfold alloc in H. rewrite <- !app_assoc, Hown in H. cbn [app] in H.
  rewrite !length_app in H. cbn [length] in H.
  replace (length hs + 1)%nat with (S (length hs)) in H by lia.
  replace (length hs + 2)%nat with (S (S (length hs))) in H by lia.
  replace (length hs + 3)%nat with (S (S (S (length hs)))) in H by lia.
  injection H as Hs Hh'. subst s h'.
  exists (S (S (S (length hs)))), (length hs), (S (length hs)), (S (S (length hs))),
    gp, sts.
  split; [done|].
  split; [apply lookup_ge_None_2; lia|].
  split; [apply lookup_ge_None_2; lia|].
  split; [apply lookup_ge_None_2; lia|].
  split; [lia|].
  split; [apply lookup_at1|].
  split; [apply lookup_at2|].
  split; [done|]. split.
  { intros c m0 g Hc Hm0 Hg Hgt. specialize (Hcp c m0 g Hc Hm0 Hg). subst cachedParams.
    destruct (Hk1 Hgt) as [-> Hk]. split; [done|].
    rewrite Hhs, Hk, app_nil_r, !length_app. cbn [length]. lia. }
  change (hs ++ ?a :: ?b :: ?c :: ?d) with (hs ++ [a; b; c] ++ d).
  rewrite app_assoc. rewrite list_lookup_middle; [done|].
  rewrite length_app. cbn [length]. lia.
Qed.

(** X14.  A cache that has truthy [globalParams]: the three global
    parameters are not fetched, whatever [decay], [maxRatio] and [weight]
    would answer (a rejection included) [initState] does the same, and the
    state it resolves to has the cached [globalParams], the very same
    value; only the request-token settings, the two default arrays and the
    state are allocated. *)
Theorem initState_cached_globalParams a (c : loc) h m0 g :
  h !! c = Some (CObj m0) →
  m0 !! "globalParams"%string = Some g →
  to_boolean g = true →
  (∀ d m w : res jsstring,
     init a (VRef c) h
     = init {| decay := d; maxRatio := m; weight := w;
               loadTokenSettings := loadTokenSettings a;
               init_updateBalances := init_updateBalances a |} (VRef c) h)
  ∧ (∀ (s : val) (h' : heap),
       init a (VRef c) h = (Resolved s, h') →
       field_of h' s "globalParams" = g ∧ length h' = (length h + 4)%nat).
Proof.
  intros Hc Hg Hgt. split.
  - intros d m w. unfold initState.
    unfold bind at 1. cbn [to_boolean]. unfold get_field at 1. rewrite Hc, Hg.
    cbn [from_option id]. unfold bind at 1. rewrite Hgt. unfold ret at 1.
    symmetry.
    unfold bind at 1. cbn [to_boolean]. unfold get_field at 1. rewrite Hc, Hg.
    cbn [from_option id]. unfold bind at 1. rewrite Hgt. unfold ret at 1.
    reflexivity.
  - intros s h' H. apply initState_resolved_shape in H
      as (l & r & p & q & gp & sts & -> & _ & _ & _ & _ & _ & _ & _ & Hgp & Hl).
    + destruct (Hgp c m0 g eq_refl Hc Hg Hgt) as [-> Hlen]. split; [|done].
      rewrite (field_of_obj _ _ _ _ Hl). by simplify_map_eq.
    + intros l [= ->]. by eexists.
Qed.

(** X15.  What the cache keeps.  When [initState] resolves on a cached
    state of the store (or a primitive), every property of the cached state
    other than [globalParams], [stakeToken],
    [requestToken] and [isSyncing] is in the new state with the same value,
    [proposals] and [convictionStakes] included; [proposals] and
    [convictionStakes] that the cache lacks are two new, different, empty
    arrays; and the new state has no other property. *)
Theorem initState_keys a cachedState h s h' :
  init a cachedState h = (Resolved s, h') →
  (∀ l, cachedState = VRef l → is_Some (h !! l)) →
  (∀ (k : string) (v : val),
     own_props h cachedState !! k = Some v →
     k ≠ "globalParams"%string → k ≠ "stakeToken"%string →
     k ≠ "requestToken"%string → k ≠ "isSyncing"%string →
     own_props h' s !! k = Some v)
  ∧ (∃ p q : loc,
       h !! p = None ∧ h !! q = None ∧ p ≠ q
       ∧ h' !! p = Some (CArr []) ∧ h' !! q = Some (CArr [])
       ∧ (own_props h cachedState !! "proposals"%string = None →
          own_props h' s !! "proposals"%string = Some (VRef p))
       ∧ (own_props h cachedState !! "convictionStakes"%string = None →
          own_props h' s !! "convictionStakes"%string = Some (VRef q)))
  ∧ (∀ k : string,
       own_props h cachedState !! k = None →
       k ≠ "globalParams"%string → k ≠ "stakeToken"%string →
       k ≠ "requestToken"%string → k ≠ "isSyncing"%string →
       k ≠ "proposals"%string → k ≠ "convictionStakes"%string →
       own_props h' s !! k = None).
Proof.
  intros H Hwf. apply initState_resolved_shape in H
    as (l & r & p & q & gp & sts & -> & _ & Hp & Hq & Hpq & Hp' & Hq' & _ & _ & Hl);
    [|done].
  rewrite (own_props_obj _ _ _ Hl). split; [|split].
  - intros k v Hk H1 H2 H3 H4.
    rewrite !lookup_insert_ne by done. by apply lookup_union_Some_l.
  - exists p, q. repeat (split; [done|]). split.
    + intros Hnone. rewrite !lookup_insert_ne by done.
      rewrite lookup_union_r by done. by simplify_map_eq.
    + intros Hnone. rewrite !lookup_insert_ne by done.
      rewrite lookup_union_r by done. by simplify_map_eq.
  - intros k Hk H1 H2 H3 H4 H5 H6.
    rewrite !lookup_insert_ne by done.
    rewrite lookup_union_r by done. by simplify_map_eq.
Qed.

(** The token settings of a cache are read from its [stakeTokenSettings]:
    with a cache that is an object without that property and a predicate
    that says the settings are loaded, [initState] does not resolve. *)
Lemma initState_no_cached_settings a (c : loc) h m0 r h2 :
  h !! c = Some (CObj m0) →
  m0 !! "stakeTokenSettings"%string = None →
  (∀ k, hasLoadedTokenSettings (h ++ k) (VRef c) = true) →
  init a (VRef c) h = (r, h2) →
  ∃ e, r = Rejected e.
Proof.
  intros Hc Hnone Hloaded H. destruct r as [s|e]; [|by eexists]. exfalso.
  unfold initState in H.
  apply bind_resolved in H as (cachedParams & h1 & H1 & H).
  cbn [to_boolean] in H1. apply get_field_resolved in H1 as ->.
  apply bind_resolved in H as (gp & h1 & H1 & H).
  assert (Hh1 : ∃ k, h1 = h ++ k).
  { destruct (to_boolean cachedParams).
    - injection H1 as _ <-. exists []. by rewrite app_nil_r.
    - unfold loadGlobalParams in H1.
      apply bind_resolved in H1 as (? & ? & [= _ <-] & H1).
      apply bind_resolved in H1 as (? & ? & [= _ <-] & H1).
      apply bind_resolved in H1 as (? & ? & [= _ <-] & H1).
      injection H1 as _ <-. by eexists. }
  destruct Hh1 as (k1 & ->). clear H1.
  apply bind_resolved in H as (loaded & h1 & Hload & H).
  injection Hload as <- <-. rewrite Hloaded in H.
  apply bind_resolved in H as (sts & h1 & H1 & H).
  apply (get_field_obj_resolved _ _ _ m0) in H1 as [-> ->]; [|by apply lookup_old].
  rewrite Hnone in H. cbn [from_option id] in H.
  apply bind_resolved in H as (requestTokenSettings & h1 & H1 & H).
  apply bind_resolved in H as (label & h3 & H3 & H).
  unfold identify_label in H3.
  apply bind_resolved in H3 as (x & h4 & H4 & _). discriminate.
Qed.

(** X16.  Starting again from its own state.  The state that [initState]
    resolves to has a [stakeToken] property, where the token settings are
    put, and has a [stakeTokenSettings] only if the cache it came from had
    one; if it is given back as the cache and [hasLoadedTokenSettings]
    accepts it (in the store as it is then, and however it is extended),
    the settings are read from [stakeTokenSettings], and [initState] does
    not resolve, whatever the collaborators answer. *)
Theorem initState_restart a0 c0 h0 s h a r h2 :
  init a0 c0 h0 = (Resolved s, h) →
  (∀ l, c0 = VRef l → is_Some (h0 !! l)) →
  own_props h0 c0 !! "stakeTokenSettings"%string = None →
  (∀ k, hasLoadedTokenSettings (h ++ k) s = true) →
  init a s h = (r, h2) →
  is_Some (own_props h s !! "stakeToken"%string)
  ∧ own_props h s !! "stakeTokenSettings"%string = None
  ∧ ∃ e, r = Rejected e.
Proof.
  intros H0 Hwf Hnone Hloaded H.
  apply initState_resolved_shape in H0
    as (l & r0 & p & q & gp & sts & -> & _ & _ & _ & _ & _ & _ & _ & _ & Hl);
    [|done].
  assert (Hkey : (<["isSyncing"%string := VBool true]>
        (<["requestToken"%string := VRef r0]>
        (<["stakeToken"%string := sts]>
        (<["globalParams"%string := gp]>
        (own_props h0 c0
         ∪ (<["proposals"%string := VRef p]>
           (<["convictionStakes"%string := VRef q]> ∅)))))))
        !! "stakeTokenSettings"%string = None).
  { rewrite !lookup_insert_ne by done. rewrite lookup_union_r by done.
    by simplify_map_eq. }
  split; [rewrite (own_props_obj _ _ _ Hl); by simplify_map_eq|].
  split; [by rewrite (own_props_obj _ _ _ Hl)|].
  by eapply (initState_no_cached_settings a l h).
Qed.

End InitStateMore.

(** ** initState at concrete caches *)

Lemma initState_cached_globalParams_witness :
  Ex.init Ex.init_answer Ex.cached_params Ex.cached_params_heap
  = Ex.init {| decay := Rejected TypeError; maxRatio := Rejected TypeError;
               weight := Rejected TypeError;
               loadTokenSettings := Resolved (VRef 5%nat);
               init_updateBalances := Resolved (VRef 3%nat) |}
      Ex.cached_params Ex.cached_params_heap.
Proof.
  apply (proj1 (initState_cached_globalParams (λ _ _, false) (λ _ _, Resolved []) Ex.token
    Ex.init_answer 7%nat Ex.cached_params_heap
    (<["globalParams"%string := VRef 6%nat]> (<["proposals"%string := VRef 0%nat]>
       (<["convictionStakes"%string := VRef 1%nat]> ∅)))
    (VRef 6%nat) eq_refl eq_refl eq_refl)).
Defined.

Lemma initState_keys_witness :
  own_props Ex.started.2 (VRef 10%nat) !! "proposals"%string = Some (VRef 0%nat).
Proof.
  apply (proj1 (initState_keys Ex.has_stake_token (λ _ _, Resolved []) Ex.token
    Ex.init_answer Ex.cached Ex.cached_heap (VRef 10%nat) Ex.started.2
    ltac:(by vm_compute) ltac:(intros l [= <-]; by eexists))); by vm_compute.
Defined.

Lemma initState_restart_witness :
  ∃ e, (Ex.init_restart Ex.init_answer (VRef 10%nat) Ex.started.2).1 = Rejected e.
Proof.
  destruct (Ex.init_restart Ex.init_answer (VRef 10%nat) Ex.started.2) as [r h2] eqn:E.
  destruct (initState_restart Ex.has_stake_token (λ _ _, Resolved []) Ex.token
    Ex.init_answer Ex.cached Ex.cached_heap (VRef 10%nat) Ex.started.2
    Ex.init_answer r h2) as (_ & _ & e & ->).
  - by vm_compute.
  - intros l [= <-]. by eexists.
  - by vm_compute.
  - intros k. unfold Ex.has_stake_token. rewrite own_props_app.
    + by vm_compute.
    + intros l [= <-]. by eexists.
  - exact E.
  - by exists e.
Defined.

(** ** loadGlobalParams and getRequestTokenSettings: what is not checked *)

(** A quotient by a finite number other than zero is NaN only for NaN. *)
Lemma num_div_nan (x : jsnum) (s : bool) (m : positive) (e : Z) :
  num_div x (S754_finite s m e) = S754_nan ↔ x = S754_nan.
Proof.
  split; [|by intros ->].
  destruct x as [sx|sx| |sx mx ex]; [done..|].
  unfold num_div, SFdiv. intros H. exfalso. revert H.
  unfold SFdiv_core_binary.
  set (m' := match _ - _ - _ with Z0 => Z.pos mx | Z.pos _ => _ | Z.neg _ => 0 end).
  assert (Hm' : 0 <= m').
  { unfold m'. destruct (_ - _ - _) eqn:Hs; [lia| |lia].
    rewrite Z.shiftl_mul_pow2 by lia. apply Z.mul_nonneg_nonneg; [lia|].
    apply Z.pow_nonneg. lia. }
  pose proof (Z.div_pos m' (Z.pos m) Hm' ltac:(lia)) as Hq.
  unfold Z.div in Hq. destruct (Z.div_eucl m' (Z.pos m)) as [q r]. cbn [fst] in Hq.
  by apply binary_round_aux_not_nan.
Qed.

Lemma num_div_10_nan (x : jsnum) : num_div x (num_of_Z 10) = S754_nan ↔ x = S754_nan.
Proof.
  destruct (num_of_Z 10) as [s|s| |s m e] eqn:E; [by vm_compute in E..|].
  apply num_div_nan.
Qed.

Lemma num_div_100_nan (x : jsnum) : num_div x (num_of_Z 100) = S754_nan ↔ x = S754_nan.
Proof.
  destruct (num_of_Z 100) as [s|s| |s m e] eqn:E; [by vm_compute in E..|].
  apply num_div_nan.
Qed.

(** X17.  [loadGlobalParams] validates nothing.  Whatever three texts the
    calls resolve to, it resolves to a new object with exactly the
    properties [alpha], [maxRatio] and [weight], each a number, and the
    number is NaN exactly when [parseInt] of the text is; nothing but that
    object is added to the store.  When one of the calls is rejected it is
    rejected, and the store stays as it was. *)
Theorem loadGlobalParams_unvalidated (a : init_answers) (h : heap) :
  (∀ d m w : jsstring,
     decay a = Resolved d → maxRatio a = Resolved m → weight a = Resolved w →
     ∃ x y z : jsnum,
       loadGlobalParams a h
       = (Resolved (VRef (length h)),
          h ++ [CObj (<["alpha"%string := VNum x]> (<["maxRatio"%string := VNum y]>
                     (<["weight"%string := VNum z]> ∅)))])
       ∧ (x = S754_nan ↔ parseInt (Some d) = S754_nan)
       ∧ (y = S754_nan ↔ parseInt (Some m) = S754_nan)
       ∧ (z = S754_nan ↔ parseInt (Some w) = S754_nan))
  ∧ ((∃ e, decay a = Rejected e) ∨ (∃ e, maxRatio a = Rejected e)
     ∨ (∃ e, weight a = Rejected e) →
     ∃ e, loadGlobalParams a h = (Rejected e, h)).
Proof.
  split.
  - intros d m w Hd Hm Hw. unfold loadGlobalParams, bind, await, alloc.
    rewrite Hd, Hm, Hw. eexists _, _, _. split; [reflexivity|].
    split; [apply num_div_10_nan|]. split; [apply num_div_10_nan|apply num_div_100_nan].
  - intros H. unfold loadGlobalParams, bind, await.
    destruct (decay a) as [d|e1]; [|by eexists].
    destruct (maxRatio a) as [m|e2]; [|by eexists].
    destruct (weight a) as [w|e3]; [|by eexists].
    destruct H as [[e H]|[[e H]|[e H]]]; discriminate.
Qed.

Lemma loadGlobalParams_unvalidated_witness :
  ∃ x y z : jsnum,
    loadGlobalParams Ex.init_answer Ex.cached_heap
    = (Resolved (VRef (length Ex.cached_heap)),
       Ex.cached_heap
       ++ [CObj (<["alpha"%string := VNum x]> (<["maxRatio"%string := VNum y]>
                (<["weight"%string := VNum z]> ∅)))])
    ∧ (x = S754_nan ↔ parseInt (Some (lit "9")) = S754_nan)
    ∧ (y = S754_nan ↔ parseInt (Some (lit "2")) = S754_nan)
    ∧ (z = S754_nan ↔ parseInt (Some (lit "5")) = S754_nan).
Proof.
  apply (proj1 (loadGlobalParams_unvalidated Ex.init_answer Ex.cached_heap)
           (lit "9") (lit "2") (lit "5")); reflexivity.
Defined.

(** X18.  When [getRequestTokenSettings] is rejected.  A rejected
    [updateBalances] rejects it with the same reason; [undefined] and
    [null] for the balances reject it with a TypeError; in both cases the
    store stays as it was.  Every other answer resolves it, to one new
    object. *)
Theorem getRequestTokenSettings_rejects (address : val) (r : res val) (h : heap) :
  (∀ e, r = Rejected e → getRequestTokenSettings address r h = (Rejected e, h))
  ∧ (r = Resolved VUndef ∨ r = Resolved VNull →
     getRequestTokenSettings address r h = (Rejected TypeError, h))
  ∧ (∀ balances, r = Resolved balances → balances ≠ VUndef → balances ≠ VNull →
     ∃ first : val,
       getRequestTokenSettings address r h
       = (Resolved (VRef (length h)),
          h ++ [CObj (<["address"%string := address]> (own_props h first))])).
Proof.
  split; [|split].
  - by intros e ->.
  - by intros [-> | ->].
  - intros balances -> Hu Hn.
    unfold getRequestTokenSettings, bind, await.
    destruct (get_index0 balances h) as [[first|e] h1] eqn:Hi.
    + pose proof (get_index0_store balances h) as Hs. rewrite Hi in Hs. simpl in Hs.
      subst h1. exists first. reflexivity.
    + exfalso. destruct balances as [| | | |[|c s]| |l]; try done.
      simpl in Hi. by repeat case_match.
Qed.

Lemma getRequestTokenSettings_rejects_witness :
  getRequestTokenSettings Ex.token (Resolved VUndef) Ex.seed_heap
  = (Rejected TypeError, Ex.seed_heap).
Proof.
  apply (proj1 (proj2 (getRequestTokenSettings_rejects Ex.token (Resolved VUndef)
                         Ex.seed_heap))).
  by left.
Defined.

(** ** From the start to the first events *)

Section StartThenReduce.

Variable addressesEqual : val → val → bool.
Variable toUtf8 : val → res val.
Variables SYNC_STATUS_SYNCING SYNC_STATUS_SYNCED : val.
Variables stakeTokenAddress vaultAddress requestTokenAddress : val.
Variable hasLoadedTokenSettings : heap → val → bool.
Variable to_label : heap → val → res jsstring.

Local Abbreviation red :=
  (reducer addressesEqual toUtf8 SYNC_STATUS_SYNCING SYNC_STATUS_SYNCED
     stakeTokenAddress vaultAddress requestTokenAddress).
Local Abbreviation to_switch :=
  (reaches_switch addressesEqual stakeTokenAddress vaultAddress requestTokenAddress).
Local Abbreviation init :=
  (initState hasLoadedTokenSettings to_label requestTokenAddress).

(** The store after a push on the array at [arr], seen from a state object
    allocated after it. *)
Lemma pushed_state (h : heap) (m lit : gmap string val) (arr other : loc) (x : val) :
  let h2 := <[arr := CArr ([] ++ [x])]> (h ++ [CObj m; CObj lit]) in
  h !! arr = Some (CArr []) → h !! other = Some (CArr []) → arr ≠ other →
  own_props h2 (VRef (length h)) = m
  ∧ own_props h2 (VRef (S (length h))) = lit
  ∧ h2 !! arr = Some (CArr [x])
  ∧ h2 !! other = Some (CArr []).
Proof.
  intros h2 Harr Hother Hne. unfold h2.
  assert (Ha : (arr < length h)%nat) by (by eapply lookup_lt_Some).
  assert (Ho : (other < length h)%nat) by (by eapply lookup_lt_Some).
  split; [|split; [|split]].
  - unfold own_props. rewrite list_lookup_insert_ne by lia. by rewrite lookup_at0.
  - unfold own_props. rewrite list_lookup_insert_ne by lia. by rewrite lookup_at1.
  - rewrite list_lookup_insert_eq; [done|]. rewrite length_app. lia.
  - rewrite list_lookup_insert_ne by done. by apply lookup_old.
Qed.

(** X19.  The start makes the first events safe.  From a cache without
    [proposals] and [convictionStakes] (a first start), the state that
    [initState] resolves to has both arrays, empty: a [ProposalAdded] event
    that reaches the [switch] and whose link decodes is reduced without an
    error, to a state whose [proposals] holds the new proposal alone and
    whose [convictionStakes] is still empty; and a [StakeChanged] event, to
    a state whose [convictionStakes] holds the new stake alone and whose
    [proposals] is still empty. *)
Theorem initState_then_reducer ia cachedState h s h' a e :
  init ia cachedState h = (Resolved s, h') →
  (∀ l, cachedState = VRef l → is_Some (h !! l)) →
  own_props h cachedState !! "proposals"%string = None →
  own_props h cachedState !! "convictionStakes"%string = None →
  to_switch e = true →
  (∀ link : val,
     strict_eq (event e) (VStr (lit "ProposalAdded")) = true →
     decoded_link toUtf8 e = Resolved link →
     ∃ (s2 : val) (h2 : heap) (p : loc),
       red a s e h' = (Resolved s2, h2)
       ∧ array_of h2 s2 "proposals" = Some [VRef p]
       ∧ own_props h2 (VRef p) = proposal_literal e link
       ∧ array_of h2 s2 "convictionStakes" = Some [])
  ∧ (strict_eq (event e) (VStr (lit "StakeChanged")) = true →
     ∃ (s2 : val) (h2 : heap) (p : loc),
       red a s e h' = (Resolved s2, h2)
       ∧ array_of h2 s2 "convictionStakes" = Some [VRef p]
       ∧ own_props h2 (VRef p) = stake_literal e
       ∧ array_of h2 s2 "proposals" = Some []).
Proof.
  intros H Hwf Hnp Hnc Hsw.
  apply initState_resolved_shape in H
    as (l & r & p & q & gp & sts & -> & _ & _ & _ & Hpq & Hp' & Hq' & _ & _ & Hl);
    [|done].
  assert (Hprops : own_props h' (VRef l) !! "proposals"%string = Some (VRef p)).
  { rewrite (own_props_obj _ _ _ Hl). rewrite !lookup_insert_ne by done.
    rewrite lookup_union_r by done. by simplify_map_eq. }
  assert (Hstakes : own_props h' (VRef l) !! "convictionStakes"%string = Some (VRef q)).
  { rewrite (own_props_obj _ _ _ Hl). rewrite !lookup_insert_ne by done.
    rewrite lookup_union_r by done. by simplify_map_eq. }
  split.
  - intros link Hname Hlink.
    pose proof (ProposalAdded_run addressesEqual toUtf8 SYNC_STATUS_SYNCING
      SYNC_STATUS_SYNCED stakeTokenAddress vaultAddress requestTokenAddress
      a (VRef l) e h' p [] link Hname Hsw Hprops Hp' Hlink) as Hrun.
    destruct (pushed_state h' (own_props h' (VRef l)) (proposal_literal e link) p q
                (VRef (S (length h'))) Hp' Hq' Hpq) as (Hs & Hlit & Harr & Hoth).
    eexists _, _, (S (length h')). split; [exact Hrun|].
    split; [|split].
    + unfold array_of, field_of. rewrite Hs, Hprops. cbn [from_option id default].
      by rewrite Harr.
    + exact Hlit.
    + unfold array_of, field_of. rewrite Hs, Hstakes. cbn [from_option id default].
      by rewrite Hoth.
  - intros Hname.
    pose proof (StakeChanged_run addressesEqual toUtf8 SYNC_STATUS_SYNCING
      SYNC_STATUS_SYNCED stakeTokenAddress vaultAddress requestTokenAddress
      a (VRef l) e h' q [] Hname Hsw Hstakes Hq') as Hrun.
    destruct (pushed_state h' (own_props h' (VRef l)) (stake_literal e) q p
                (VRef (S (length h'))) Hq' Hp' (not_eq_sym Hpq)) as (Hs & Hlit & Harr & Hoth).
    eexists _, _, (S (length h')). split; [exact Hrun|].
    split; [|split].
    + unfold array_of, field_of. rewrite Hs, Hstakes. cbn [from_option id default].
      by rewrite Harr.
    + exact Hlit.
    + unfold array_of, field_of. rewrite Hs, Hprops. cbn [from_option id default].
      by rewrite Hoth.
Qed.

End StartThenReduce.

Lemma initState_then_reducer_witness :
  ∃ (s2 : val) (h2 : heap) (p : loc),
    Ex.reduce Ex.no_answer (VRef 10%nat) Ex.stake_changed Ex.first_start.2 = (Resolved s2, h2)
    ∧ array_of h2 s2 "convictionStakes" = Some [VRef p]
    ∧ own_props h2 (VRef p) = stake_literal Ex.stake_changed
    ∧ array_of h2 s2 "proposals" = Some [].
Proof.
  apply (proj2 (initState_then_reducer strict_eq (λ v, Resolved v) Ex.syncing Ex.synced
    Ex.stake Ex.vault Ex.token Ex.has_stake_token (λ _ _, Resolved [])
    Ex.init_answer VNull Ex.cached_heap (VRef 10%nat) Ex.first_start.2
    Ex.no_answer Ex.stake_changed
    ltac:(by vm_compute) ltac:(by intros l [=])
    ltac:(by vm_compute) ltac:(by vm_compute) ltac:(by vm_compute))).
  by vm_compute.
Defined.
